(** * RMS current monitor with interactive calibration (auto-calibration.ino)

    A shallow embedding of the ESP32 + ADS1115 + SCT-013 sketch: the RMS
    sampler [measure_vrms], the scaling [measure_irms], the interactive
    calibration routine, [setup] and one iteration of [loop].

    C++ [float] and [double] values are IEEE 754 binary32 and binary64
    numbers, computed with the executable specification of the Rocq
    library ([SpecFloat]), rounding to nearest even.  The converter, the
    serial console, the millisecond clock and the non-volatile store are
    explicit components of the machine state. *)

From Stdlib Require Import ZArith Lia Bool List String Ascii.
From Stdlib Require Import Floats.SpecFloat.
From stdpp Require Import base option gmap strings.
Import ListNotations.

Local Open Scope Z_scope.

(** ** IEEE 754 formats *)

Module IEEE.

Section Format.
Variables prec emax : Z.

(** Conversion of a number of another format into this one (a C cast
    between [float] and [double]): the value is rounded to the format. *)
Definition SFconv (x : spec_float) : spec_float :=
  match x with
  | S754_finite s m e => binary_normalize prec emax (cond_Zopp s (Zpos m)) e s
  | _ => x
  end.

(** Conversion of a C integer. *)
Definition SFofZ (z : Z) : spec_float := binary_normalize prec emax z 0 false.

(** A number that is not NaN and whose sign bit is clear. *)
Definition nonneg (x : spec_float) : bool :=
  match x with
  | S754_nan => false
  | S754_zero s | S754_infinity s | S754_finite s _ _ => negb s
  end.

Definition is_nan (x : spec_float) : bool :=
  match x with S754_nan => true | _ => false end.

Definition pos_finite (x : spec_float) : bool :=
  match x with S754_finite false _ _ => true | _ => false end.

(** The result of a rounding that carries the sign [s]. *)
Definition signed (s : bool) (x : spec_float) : Prop :=
  match x with
  | S754_nan => False
  | S754_zero s' | S754_infinity s' | S754_finite s' _ _ => s' = s
  end.

End Format.

End IEEE.

(** ** C++ scalar types of the sketch *)

(** [float] is binary32, [double] is binary64. *)
Definition float : Type := spec_float.
Definition double : Type := spec_float.

Definition float_of_int : Z -> float := IEEE.SFofZ 24 128.
Definition float_of_double : double -> float := IEEE.SFconv 24 128.
Definition float_mul : float -> float -> float := SFmul 24 128.
Definition float_div : float -> float -> float := SFdiv 24 128.
(** [sqrt] on a [float]: the correctly rounded binary32 square root. *)
Definition float_sqrt : float -> float := SFsqrt 24 128.
Definition float_ltb : float -> float -> bool := SFltb.
Definition float_leb : float -> float -> bool := SFleb.

Definition double_of_int : Z -> double := IEEE.SFofZ 53 1024.
Definition double_of_float : float -> double := IEEE.SFconv 53 1024.
Definition double_add : double -> double -> double := SFadd 53 1024.
Definition double_mul : double -> double -> double := SFmul 53 1024.
Definition double_div : double -> double -> double := SFdiv 53 1024.

(** Literals of the source, as the nearest binary32 numbers. *)
Definition lit_2_048f : float := S754_finite false 8589935 (-22).
Definition lit_32768f : float := S754_finite false 8388608 (-8).
Definition lit_5f : float := S754_finite false 10485760 (-21).
Definition lit_0_001f : float := S754_finite false 8589935 (-33).
Definition lit_1000f : float := S754_finite false 16384000 (-14).
Definition lit_0f : float := S754_zero false.
Definition lit_0 : double := S754_zero false.

(** [int16_t] and [uint32_t] wrap-around. *)
Definition int16_wrap (z : Z) : Z := (z + 32768) mod 65536 - 32768.
Definition uint32_wrap (z : Z) : Z := z mod 4294967296.
Definition INT_MAX : Z := 2147483647.

(** Conversion of the [int] returned by [Serial.read()] to [char]. *)
Definition char_of_int (z : Z) : ascii := ascii_of_N (Z.to_N (z mod 256)).

(** ** Constants of the sketch *)

Definition ADS_LSB : float := float_div lit_2_048f lit_32768f.
Definition SAMPLES : Z := 1600.
Definition SAMPLE_DELAY_US : Z := 1150.
Definition calibrationFactor_init : float := lit_5f.
Definition PREF_KEY : string := "sct_factor".
Definition PREF_NAMESPACE : string := "sct_conf".
Definition IGNORE_THRESHOLD_A : float := lit_0_001f.

(** ** Devices *)

(** The serial line as the sketch observes it: bytes in arrival order,
    with a [Gap] wherever the bytes that follow arrive only after a
    further delay has elapsed.  The bytes before the first [Gap] are the
    receive buffer; each call of [delay] or [delayMicroseconds] lets one
    gap elapse.  A line without bytes left is an operator who sends
    nothing more. *)
Inductive line_event : Type :=
  | RxByte (c : ascii)
  | Gap.

(** What the sketch writes to the console. *)
Inductive tx_event : Type :=
  | TxStr (s : string)
  | TxFloat (v : float) (digits : Z)
  | TxLn.

Record HardwareSerial : Type := {
  rx : list line_event;
  tx : list tx_event
}.

Inductive adsGain_t : Type := GAIN_TWOTHIRDS | GAIN_ONE.

(** The converter: whether it answers on the bus, its gain, and the
    results of its successive conversions. *)
Record Adafruit_ADS1115 : Type := {
  ads_present : bool;
  ads_gain : adsGain_t;
  ads_conversions : nat -> Z;
  ads_next : nat
}.

(** The [Preferences] handle: the namespace it was opened on, if any. *)
Record Preferences : Type := {
  prefs_namespace : option string
}.

(** An operation performed on the non-volatile store. *)
Inductive nvs_op : Type :=
  | NvsPut (ns key : string) (v : float)
  | NvsRemove (ns key : string).

(** The millisecond clock: the values its successive readings return. *)
Record Clock : Type := {
  clock_readings : nat -> Z;
  clock_next : nat
}.

(** The machine: the globals of the sketch, the function-static [t0] of
    [loop] ([None] until its initialiser has run), the devices, the
    non-volatile store (namespace and key to value) and the journal of
    the operations performed on it. *)
Record World : Type := {
  calibrationFactor : float;
  loop_t0 : option Z;
  Serial : HardwareSerial;
  ads : Adafruit_ADS1115;
  prefs : Preferences;
  clock : Clock;
  nvs : gmap (string * string) float;
  nvs_journal : list nvs_op
}.

Definition set_calibrationFactor (f : float) (w : World) : World :=
  {| calibrationFactor := f; loop_t0 := loop_t0 w; Serial := Serial w;
     ads := ads w; prefs := prefs w; clock := clock w; nvs := nvs w;
     nvs_journal := nvs_journal w |}.

Definition set_loop_t0 (t : option Z) (w : World) : World :=
  {| calibrationFactor := calibrationFactor w; loop_t0 := t; Serial := Serial w;
     ads := ads w; prefs := prefs w; clock := clock w; nvs := nvs w;
     nvs_journal := nvs_journal w |}.

Definition set_Serial (s : HardwareSerial) (w : World) : World :=
  {| calibrationFactor := calibrationFactor w; loop_t0 := loop_t0 w; Serial := s;
     ads := ads w; prefs := prefs w; clock := clock w; nvs := nvs w;
     nvs_journal := nvs_journal w |}.

Definition set_ads (a : Adafruit_ADS1115) (w : World) : World :=
  {| calibrationFactor := calibrationFactor w; loop_t0 := loop_t0 w; Serial := Serial w;
     ads := a; prefs := prefs w; clock := clock w; nvs := nvs w;
     nvs_journal := nvs_journal w |}.

Definition set_prefs (p : Preferences) (w : World) : World :=
  {| calibrationFactor := calibrationFactor w; loop_t0 := loop_t0 w; Serial := Serial w;
     ads := ads w; prefs := p; clock := clock w; nvs := nvs w;
     nvs_journal := nvs_journal w |}.

Definition set_clock (c : Clock) (w : World) : World :=
  {| calibrationFactor := calibrationFactor w; loop_t0 := loop_t0 w; Serial := Serial w;
     ads := ads w; prefs := prefs w; clock := c; nvs := nvs w;
     nvs_journal := nvs_journal w |}.

Definition set_nvs (m : gmap (string * string) float) (op : nvs_op) (w : World) : World :=
  {| calibrationFactor := calibrationFactor w; loop_t0 := loop_t0 w; Serial := Serial w;
     ads := ads w; prefs := prefs w; clock := clock w; nvs := m;
     nvs_journal := nvs_journal w ++ [op] |}.

(** ** Computations on the machine

    [None] is a computation that never returns: the sketch has no
    time-outs, so a wait for input that never comes blocks for ever. *)
Definition M (A : Type) : Type := World -> option (A * World).

Definition ret {A} (a : A) : M A := fun w => Some (a, w).

Definition bind {A B} (c : M A) (k : A -> M B) : M B :=
  fun w => match c w with
           | Some (a, w') => k a w'
           | None => None
           end.

Definition diverge {A} : M A := fun _ => None.

Declare Scope sketch_scope.
Delimit Scope sketch_scope with sketch.
Notation "x <- c ;; k" := (bind c (fun x => k))
  (at level 100, c at next level, right associativity) : sketch_scope.
Notation "c ;; k" := (bind c (fun _ => k))
  (at level 100, right associativity) : sketch_scope.
Local Open Scope sketch_scope.

Definition get {A} (f : World -> A) : M A := fun w => Some (f w, w).
Definition modify (f : World -> World) : M unit := fun w => Some (tt, f w).

(** *** Time *)

(** The bytes that were still on their way arrive. *)
Fixpoint elapse (l : list line_event) : list line_event :=
  match l with
  | [] => []
  | Gap :: l' => l'
  | RxByte c :: l' => RxByte c :: elapse l'
  end.

Definition time_passes : M unit :=
  modify (fun w => set_Serial {| rx := elapse (rx (Serial w)); tx := tx (Serial w) |} w).

Definition delay (ms : Z) : M unit := time_passes.
Definition delayMicroseconds (us : Z) : M unit := time_passes.

Definition millis : M Z :=
  fun w =>
    let c := clock w in
    Some (uint32_wrap (clock_readings c (clock_next c)),
          set_clock {| clock_readings := clock_readings c; clock_next := S (clock_next c) |} w).

(** *** Serial console *)

Fixpoint buffered (l : list line_event) : Z :=
  match l with
  | RxByte _ :: l' => 1 + buffered l'
  | _ => 0
  end.

Definition Serial_begin (baud : Z) : M unit := ret tt.

Definition Serial_available : M Z := get (fun w => buffered (rx (Serial w))).

(** [Serial.read()]: the next buffered byte, or -1 when there is none. *)
Definition Serial_read : M Z :=
  fun w =>
    match rx (Serial w) with
    | RxByte c :: l' =>
        Some (Z.of_N (N_of_ascii c), set_Serial {| rx := l'; tx := tx (Serial w) |} w)
    | _ => Some (-1, w)
    end.

Definition emit (evs : list tx_event) : M unit :=
  modify (fun w => set_Serial {| rx := rx (Serial w); tx := tx (Serial w) ++ evs |} w).

Definition Serial_print (s : string) : M unit := emit [TxStr s].
Definition Serial_println (s : string) : M unit := emit [TxStr s; TxLn].
Definition Serial_println_empty : M unit := emit [TxLn].
Definition Serial_print_float (v : float) (digits : Z) : M unit := emit [TxFloat v digits].
Definition Serial_println_float (v : float) (digits : Z) : M unit := emit [TxFloat v digits; TxLn].

(** *** Converter

    [readADC_Differential_0_1] returns the next conversion as an
    [int16_t]. *)

Definition ads_begin : M bool := get (fun w => ads_present (ads w)).

Definition ads_setGain (g : adsGain_t) : M unit :=
  modify (fun w => set_ads {| ads_present := ads_present (ads w); ads_gain := g;
                              ads_conversions := ads_conversions (ads w);
                              ads_next := ads_next (ads w) |} w).

Definition ads_readADC_Differential_0_1 : M Z :=
  fun w =>
    let a := ads w in
    Some (int16_wrap (ads_conversions a (ads_next a)),
          set_ads {| ads_present := ads_present a; ads_gain := ads_gain a;
                     ads_conversions := ads_conversions a;
                     ads_next := S (ads_next a) |} w).

(** *** Non-volatile store

    The [Preferences] methods the sketch calls.  The store holds [float]
    values only (the sketch writes nothing else to it); a method called
    before [begin] has no effect and reads the default. *)

Definition prefs_begin (name : string) (readOnly : bool) : M unit :=
  modify (set_prefs {| prefs_namespace := Some name |}).

Definition prefs_isKey (key : string) : M bool :=
  get (fun w => match prefs_namespace (prefs w) with
                | Some ns => bool_decide (is_Some (nvs w !! (ns, key)))
                | None => false
                end).

Definition prefs_getFloat (key : string) (defaultValue : float) : M float :=
  get (fun w => match prefs_namespace (prefs w) with
                | Some ns => default defaultValue (nvs w !! (ns, key))
                | None => defaultValue
                end).

Definition prefs_putFloat (key : string) (value : float) : M unit :=
  modify (fun w => match prefs_namespace (prefs w) with
                   | Some ns => set_nvs (<[(ns, key) := value]> (nvs w)) (NvsPut ns key value) w
                   | None => w
                   end).

Definition prefs_remove (key : string) : M unit :=
  modify (fun w => match prefs_namespace (prefs w) with
                   | Some ns => set_nvs (delete (ns, key) (nvs w)) (NvsRemove ns key) w
                   | None => w
                   end).

(** ** The sampler *)

(** The body of the [for] loop of [measure_vrms], [n] iterations left. *)
Fixpoint measure_vrms_loop (n : nat) (sumsq : double) : M double :=
  match n with
  | O => ret sumsq
  | S n' =>
      raw <- ads_readADC_Differential_0_1 ;;
      let v := float_mul (float_of_int raw) ADS_LSB in
      let sumsq := double_add sumsq (double_mul (double_of_float v) (double_of_float v)) in
      delayMicroseconds SAMPLE_DELAY_US ;;
      measure_vrms_loop n' sumsq
  end.

Definition measure_vrms (samples : Z) : M float :=
  sumsq <- measure_vrms_loop (Z.to_nat samples) lit_0 ;;
  let meanSq := float_of_double (double_div sumsq (double_of_int samples)) in
  ret (float_sqrt meanSq).

Definition measure_irms : M float :=
  vrms <- measure_vrms SAMPLES ;;
  cf <- get calibrationFactor ;;
  let irms := float_mul vrms cf in
  ret irms.

(** ** Waiting for the operator

    Each polling loop is unrolled over a bound on its iterations; the
    bound given by [patience] is never the reason why a loop stops (see
    [await_input_blocks], [flush_input_total] and [read_line_blocks]). *)
Definition patience (w : World) : nat := S (length (rx (Serial w))).

(** [while (!Serial.available()) { delay(10); }] *)
Fixpoint while_not_available (fuel : nat) : M unit :=
  match fuel with
  | O => diverge
  | S fuel' =>
      n <- Serial_available ;;
      if n =? 0 then delay 10 ;; while_not_available fuel' else ret tt
  end.

Definition await_input : M unit := fun w => while_not_available (patience w) w.

(** [while (Serial.available()) Serial.read();] *)
Fixpoint while_available_read (fuel : nat) : M unit :=
  match fuel with
  | O => diverge
  | S fuel' =>
      n <- Serial_available ;;
      if n =? 0 then ret tt else Serial_read ;; while_available_read fuel'
  end.

Definition flush_input : M unit := fun w => while_available_read (patience w) w.

Definition CR : ascii := "013"%char.
Definition LF : ascii := "010"%char.

(** The [while (true)] loop that reads the known current as a line. *)
Fixpoint read_line_loop (fuel : nat) (s : string) : M string :=
  match fuel with
  | O => diverge
  | S fuel' =>
      n <- Serial_available ;;
      if n =? 0 then delay 10 ;; read_line_loop fuel' s
      else
        c <- Serial_read ;;
        let c := char_of_int c in
        if Ascii.eqb c CR then read_line_loop fuel' s
        else if Ascii.eqb c LF then ret s
        else
          let s := String.append s (String c EmptyString) in
          delay 10 ;; read_line_loop fuel' s
  end.

Definition read_line : M string := fun w => read_line_loop (patience w) EmptyString w.

(** ** The sketch *)

Section Sketch.

(** [String::toFloat] of the Arduino core, which is not part of the
    sketch: any function from text to [float]. *)
Variable toFloat : string -> float.

Definition interactiveCalibration : M unit :=
  Serial_println "=== Interactive calibration ===" ;;
  Serial_println "Place known load (resistive). Press ENTER to start measure." ;;
  await_input ;;
  flush_input ;;
  Serial_println "Measure in progress..." ;;
  vrms <- measure_vrms SAMPLES ;;
  Serial_print "Vrms mesure = " ;;
  Serial_print_float (float_mul vrms lit_1000f) 4 ;;
  Serial_println " mV" ;;
  Serial_println "Put known current value in A :" ;;
  s <- read_line ;;
  let iknown := toFloat s in
  if float_leb iknown lit_0f then
    Serial_println "Invalid value."
  else
    let newFactor := float_div iknown vrms in
    Serial_print "New factor calculated = " ;;
    Serial_println_float newFactor 6 ;;
    Serial_println "Save ? (y/n)" ;;
    await_input ;;
    r <- Serial_read ;;
    let r := char_of_int r in
    (if Ascii.eqb r "y" || Ascii.eqb r "Y" then
       modify (set_calibrationFactor newFactor) ;;
       cf <- get calibrationFactor ;;
       prefs_putFloat PREF_KEY cf ;;
       Serial_println "Factor saved in NVS."
     else
       Serial_println "Calibration unsaved." ;;
       modify (set_calibrationFactor newFactor)) ;;
    Serial_println "=== Calibration finished ===".

Definition setup : M unit :=
  Serial_begin 115200 ;;
  delay 300 ;;
  Serial_println_empty ;;
  Serial_println "=== ESP32 SCT-013 RMS Monitor ===" ;;
  ok <- ads_begin ;;
  (if negb ok then
     Serial_println "ERROR: ADS1115 undetected !" ;;
     diverge
   else ret tt) ;;
  ads_setGain GAIN_ONE ;;
  prefs_begin PREF_NAMESPACE false ;;
  has <- prefs_isKey PREF_KEY ;;
  (if has then
     cf <- get calibrationFactor ;;
     v <- prefs_getFloat PREF_KEY cf ;;
     modify (set_calibrationFactor v) ;;
     Serial_print "Calibration factor = " ;;
     cf <- get calibrationFactor ;;
     Serial_println_float cf 6
   else
     Serial_print "No saved calibration. Default factor = " ;;
     cf <- get calibrationFactor ;;
     Serial_println_float cf 6) ;;
  Serial_println "Serial Commands: c = calibrate, r = measure, d = plot factor, x = erase factor" ;;
  Serial_println "----------------------------------------".

(** The command a byte selects in [loop]. *)
Definition dispatch (cmd : ascii) : M unit :=
  if Ascii.eqb cmd "c" then interactiveCalibration
  else if Ascii.eqb cmd "r" then
    i <- measure_irms ;;
    Serial_print "I_rms (forced) = " ;;
    Serial_print_float i 6 ;;
    Serial_println " A"
  else if Ascii.eqb cmd "d" then
    Serial_print "Calibration factor = " ;;
    cf <- get calibrationFactor ;;
    Serial_println_float cf 6
  else if Ascii.eqb cmd "x" then
    prefs_remove PREF_KEY ;;
    Serial_println "Calibration erased."
  else ret tt.

(** [static uint32_t t0 = millis();]: initialised the first time
    control passes through the declaration. *)
Definition static_t0 : M Z :=
  t <- get loop_t0 ;;
  match t with
  | Some t0 => ret t0
  | None => now <- millis ;; modify (set_loop_t0 (Some now)) ;; ret now
  end.

(** The periodic measurement at the end of [loop]. *)
Definition periodic : M unit :=
  t0 <- static_t0 ;;
  now <- millis ;;
  if 2000 <=? uint32_wrap (now - t0) then
    i <- measure_irms ;;
    (if float_ltb i IGNORE_THRESHOLD_A then
       Serial_print "I_rms <" ;;
       Serial_print_float IGNORE_THRESHOLD_A 3 ;;
       Serial_println " A (noise)"
     else
       Serial_print "I_rms: " ;;
       Serial_print_float i 4 ;;
       Serial_println " A") ;;
    now <- millis ;;
    modify (set_loop_t0 (Some now))
  else ret tt.

Definition loop : M unit :=
  n <- Serial_available ;;
  (if n =? 0 then ret tt
   else
     cmd <- Serial_read ;;
     dispatch (char_of_int cmd)) ;;
  periodic.

End Sketch.

(** ** Power-on *)

(** The machine at reset: the globals have their initial values, the
    devices are unconfigured, and the non-volatile store keeps what it
    held. *)
Definition power_on (line : list line_event) (console : list tx_event)
    (present : bool) (conversions : nat -> Z) (conv_next : nat)
    (c : Clock) (store : gmap (string * string) float)
    (journal : list nvs_op) : World :=
  {| calibrationFactor := calibrationFactor_init;
     loop_t0 := None;
     Serial := {| rx := line; tx := console |};
     ads := {| ads_present := present; ads_gain := GAIN_TWOTHIRDS;
               ads_conversions := conversions; ads_next := conv_next |};
     prefs := {| prefs_namespace := None |};
     clock := c;
     nvs := store;
     nvs_journal := journal |}.

Definition restart (w : World) : World :=
  power_on (rx (Serial w)) (tx (Serial w)) (ads_present (ads w))
    (ads_conversions (ads w)) (ads_next (ads w)) (clock w) (nvs w) (nvs_journal w).

(** ** The root mean square of a sequence of readings

    The quantity [measure_vrms] is meant to return, written from its
    description: each raw reading times the per-bit scale is a voltage
    (a [float]); the squares of the voltages are summed in [double],
    from the first reading on; the sum divided by the number of samples
    is the mean square, whose square root is taken as a [float]. *)
Definition voltage (raw : Z) : float := float_mul (float_of_int raw) ADS_LSB.

Definition square (v : float) : double :=
  double_mul (double_of_float v) (double_of_float v).

Definition sum_of_squares (vs : list float) : double :=
  fold_left (fun sum v => double_add sum (square v)) vs lit_0.

Definition mean_square (samples : Z) (vs : list float) : double :=
  double_div (sum_of_squares vs) (double_of_int samples).

Definition root_mean_square (samples : Z) (raws : list Z) : float :=
  float_sqrt (float_of_double (mean_square samples (map voltage raws))).

(** The next [n] readings the converter will deliver. *)
Definition raw_readings (w : World) (n : nat) : list Z :=
  map (fun k => int16_wrap (ads_conversions (ads w) k)) (seq (ads_next (ads w)) n).

(** The machine after [n] samples were taken: [n] conversions consumed,
    [n] sample delays elapsed. *)
Definition after_sampling (n : nat) (w : World) : World :=
  set_Serial {| rx := Nat.iter n elapse (rx (Serial w)); tx := tx (Serial w) |}
    (set_ads {| ads_present := ads_present (ads w); ads_gain := ads_gain (ads w);
                ads_conversions := ads_conversions (ads w);
                ads_next := (ads_next (ads w) + n)%nat |} w).

(** ** The serial line, seen as a list *)

Definition set_rx (l : list line_event) (w : World) : World :=
  set_Serial {| rx := l; tx := tx (Serial w) |} w.

(** The line once the gaps before the next byte have elapsed. *)
Fixpoint skip_gaps (l : list line_event) : list line_event :=
  match l with
  | Gap :: l' => skip_gaps l'
  | _ => l
  end.

(** The line once the receive buffer has been emptied. *)
Fixpoint skip_bytes (l : list line_event) : list line_event :=
  match l with
  | RxByte _ :: l' => skip_bytes l'
  | _ => l
  end.

(** The next byte the operator sends, if any. *)
Definition next_byte (l : list line_event) : option ascii :=
  match skip_gaps l with
  | RxByte c :: _ => Some c
  | _ => None
  end.

(** ** The phases of a calibration

    [interactiveCalibration] up to and including the prompt for the
    known current: it returns the measured RMS voltage. *)
Definition calibration_measure : M float :=
  Serial_println "=== Interactive calibration ===" ;;
  Serial_println "Place known load (resistive). Press ENTER to start measure." ;;
  await_input ;;
  flush_input ;;
  Serial_println "Measure in progress..." ;;
  vrms <- measure_vrms SAMPLES ;;
  Serial_print "Vrms mesure = " ;;
  Serial_print_float (float_mul vrms lit_1000f) 4 ;;
  Serial_println " mV" ;;
  Serial_println "Put known current value in A :" ;;
  ret vrms.

(** [interactiveCalibration] from the computation of the new factor on,
    for a measured voltage [vrms] and an accepted known current
    [iknown]. *)
Definition calibration_commit (vrms iknown : float) : M unit :=
  let newFactor := float_div iknown vrms in
  Serial_print "New factor calculated = " ;;
  Serial_println_float newFactor 6 ;;
  Serial_println "Save ? (y/n)" ;;
  await_input ;;
  r <- Serial_read ;;
  let r := char_of_int r in
  (if Ascii.eqb r "y" || Ascii.eqb r "Y" then
     modify (set_calibrationFactor newFactor) ;;
     cf <- get calibrationFactor ;;
     prefs_putFloat PREF_KEY cf ;;
     Serial_println "Factor saved in NVS."
   else
     Serial_println "Calibration unsaved." ;;
     modify (set_calibrationFactor newFactor)) ;;
  Serial_println "=== Calibration finished ===".

(** ** Framing

    What a computation that only talks to the devices leaves alone. *)
Record io_only (w w' : World) : Prop := {
  io_calibrationFactor : calibrationFactor w' = calibrationFactor w;
  io_prefs : prefs w' = prefs w;
  io_nvs : nvs w' = nvs w;
  io_nvs_journal : nvs_journal w' = nvs_journal w;
  io_ads_present : ads_present (ads w') = ads_present (ads w)
}.

(** A computation that moreover prints nothing. *)
Definition silent (w w' : World) : Prop :=
  io_only w w' /\ tx (Serial w') = tx (Serial w).

(** Every return of the computation [c] is related to its start by [R]. *)
Definition preserves {A} (R : World -> World -> Prop) (c : M A) : Prop :=
  forall w a w', c w = Some (a, w') -> R w w'.

(** ** Machines for concrete runs *)

Definition bytes (s : string) : list line_event :=
  map RxByte (list_ascii_of_string s).

(** A converter whose conversions cycle through -1000, 0 and 1000
    counts, and a clock that advances one second per reading. *)
Definition bench (line : list line_event)
    (store : gmap (string * string) float) : World :=
  power_on line [] true (fun k => 1000 * (Z.of_nat k mod 3) - 1000) 0
    {| clock_readings := fun k => 1000 * Z.of_nat k; clock_next := 0 |}
    store [].

(** The same machine once [setup] has opened the store. *)
Definition bench_ready (line : list line_event)
    (store : gmap (string * string) float) : World :=
  set_prefs {| prefs_namespace := Some PREF_NAMESPACE |} (bench line store).

(** A reference decimal reader.

    Reads an optional [-], digits, and an optional fraction, and rounds
    the quotient by the power of ten once to [double] and then to
    [float]; text that does not start with a number reads as 0.  It
    stands for [String::toFloat] in the runs below. *)
Definition digit_of (c : ascii) : option Z :=
  let n := Z.of_N (N_of_ascii c) in
  if (48 <=? n) && (n <=? 57) then Some (n - 48) else None.

Fixpoint scan_digits (s : string) (acc : Z) (count : Z) : Z * Z * string :=
  match s with
  | String c s' =>
      match digit_of c with
      | Some d => scan_digits s' (10 * acc + d) (count + 1)
      | None => (acc, count, s)
      end
  | EmptyString => (acc, count, s)
  end.

Definition toFloat_decimal (s : string) : float :=
  let '(neg, s1) := match s with
                    | String "-" s' => (true, s')
                    | _ => (false, s)
                    end in
  let '(ip, ni, s2) := scan_digits s1 0 0 in
  let '(num, nf) := match s2 with
                    | String "." s3 =>
                        let '(n, k, _) := scan_digits s3 ip 0 in (n, k)
                    | _ => (ip, 0)
                    end in
  if ni + nf =? 0 then lit_0f
  else float_of_double
         (double_div (double_of_int (if neg : bool then - num else num))
                     (double_of_int (10 ^ nf))).

(** What a computation returns on a machine, and the machine it leaves. *)
Definition result_of {A} (c : M A) (w : World) (d : A) : A :=
  match c w with Some (a, _) => a | None => d end.

Definition world_after {A} (c : M A) (w : World) : World :=
  match c w with Some (_, w') => w' | None => w end.

(** An operator who presses ENTER, types the known current while the
    measurement runs, and then answers the save prompt with [answer]. *)
Definition operator (current : string) (answer : ascii) : list line_event :=
  [RxByte LF; Gap] ++ bytes current ++ [RxByte CR; RxByte LF; Gap; RxByte answer].

(** The bench machine two seconds after the periodic timer was last
    reset, with a load ([loaded = true]: the converter cycles as in
    [bench]) or without one (the converter reads 0). *)
Definition bench_due (loaded : bool) : World :=
  {| calibrationFactor := calibrationFactor_init;
     loop_t0 := Some 0;
     Serial := {| rx := []; tx := [] |};
     ads := {| ads_present := true; ads_gain := GAIN_ONE;
               ads_conversions :=
                 (fun k => if loaded then 1000 * (Z.of_nat k mod 3) - 1000 else 0);
               ads_next := 0 |};
     prefs := {| prefs_namespace := Some PREF_NAMESPACE |};
     clock := {| clock_readings := fun k => 1000 * Z.of_nat k; clock_next := 2 |};
     nvs := ∅;
     nvs_journal := [] |}.

(** ** The line the operator types

    The text the line-reading loop accumulates from a serial line: the
    bytes before the first line feed, carriage returns left out. *)
Fixpoint line_text (l : list line_event) : string :=
  match l with
  | [] => EmptyString
  | Gap :: l' => line_text l'
  | RxByte c :: l' =>
      if Ascii.eqb c LF then EmptyString
      else if Ascii.eqb c CR then line_text l'
      else String c (line_text l')
  end.

(** The serial line after its first line feed. *)
Fixpoint after_line (l : list line_event) : list line_event :=
  match l with
  | [] => []
  | Gap :: l' => after_line l'
  | RxByte c :: l' => if Ascii.eqb c LF then l' else after_line l'
  end.

(** The bytes of a serial line, whenever they arrive. *)
Fixpoint rx_bytes (l : list line_event) : list ascii :=
  match l with
  | [] => []
  | Gap :: l' => rx_bytes l'
  | RxByte c :: l' => c :: rx_bytes l'
  end.

Definition INT_MIN : Z := -2147483648.

(** The command byte [loop] will read, if one is buffered. *)
Definition pending (l : list line_event) : option ascii :=
  match l with
  | RxByte c :: _ => Some c
  | _ => None
  end.

(** The value the [k]-th next call of [millis] returns. *)
Definition clock_reading (w : World) (k : nat) : Z :=
  uint32_wrap (clock_readings (clock w) (clock_next (clock w) + k)%nat).

(** The bench machine with a converter that reads 0 and the store
    open. *)
Definition bench_idle (line : list line_event) : World :=
  set_Serial {| rx := line; tx := [] |}
    (set_loop_t0 None (bench_due false)).

(** A reader that, like the C library's, reads [nan] as NaN. *)
Definition toFloat_with_nan (s : string) : float :=
  if String.eqb s "nan" then S754_nan else toFloat_decimal s.

(** ** Facts about the IEEE 754 operations *)

Module IEEE_facts.
Import IEEE.

Section Format.
Variables prec emax : Z.

Lemma shr_1_nonneg mrs : 0 <= shr_m mrs -> 0 <= shr_m (shr_1 mrs).
Proof.
  destruct mrs as [m r s]; simpl.
  destruct m as [|p|p]; simpl; try lia.
  - destruct p; simpl; lia.
Qed.

Lemma iter_pos_inv {A} (P : A -> Prop) (f : A -> A) :
  (forall a, P a -> P (f a)) -> forall p a, P a -> P (SpecFloat.iter_pos f p a).
Proof.
  intros Hf p; induction p as [p IH|p IH|]; intros a Ha; simpl; auto.
Qed.

Lemma shr_nonneg mrs e n :
  0 <= shr_m mrs -> 0 <= shr_m (fst (shr mrs e n)).
Proof.
  intros H; unfold shr; destruct n; simpl; auto.
  apply (iter_pos_inv (fun r => 0 <= shr_m r)); auto using shr_1_nonneg.
Qed.

Lemma shr_record_of_loc_m m l : shr_m (shr_record_of_loc m l) = m.
Proof. destruct l as [|[]]; reflexivity. Qed.

Lemma shr_fexp_nonneg m e l :
  0 <= m -> 0 <= shr_m (fst (shr_fexp prec emax m e l)).
Proof.
  intros H; unfold shr_fexp; apply shr_nonneg.
  now rewrite shr_record_of_loc_m.
Qed.

Lemma round_nearest_even_nonneg m l : 0 <= m -> 0 <= round_nearest_even m l.
Proof.
  intros H; unfold round_nearest_even.
  destruct l as [|[]]; try lia. destruct (Z.even m); lia.
Qed.

(** Rounding a non-negative magnitude yields a number with the sign it
    was given: never NaN. *)
Lemma binary_round_aux_signed s m e l :
  0 <= m -> signed s (binary_round_aux prec emax s m e l).
Proof.
  intros H; unfold binary_round_aux.
  pose proof (shr_fexp_nonneg m e l H) as H1.
  destruct (shr_fexp prec emax m e l) as [mrs' e']; simpl in H1.
  pose proof (shr_fexp_nonneg _ e' loc_Exact
                (round_nearest_even_nonneg _ (loc_of_shr_record mrs') H1)) as H2.
  destruct (shr_fexp prec emax _ e' loc_Exact) as [mrs'' e'']; simpl in H2.
  destruct (shr_m mrs'') as [|p|p]; simpl; try lia; auto.
  destruct (e'' <=? emax - prec); simpl; auto.
Qed.

Lemma binary_round_signed s m e : signed s (binary_round prec emax s m e).
Proof.
  unfold binary_round.
  destruct (shl_align m e _) as [mz ez].
  apply binary_round_aux_signed; lia.
Qed.

Lemma signed_false_nonneg x : signed false x -> nonneg x = true.
Proof. destruct x; simpl; intros H; try contradiction; now rewrite H. Qed.

Lemma signed_not_nan s x : signed s x -> is_nan x = false.
Proof. destruct x; simpl; intros H; try contradiction; reflexivity. Qed.

Lemma SFofZ_not_nan z : is_nan (SFofZ prec emax z) = false.
Proof.
  unfold SFofZ, binary_normalize; destruct z as [|p|p]; auto.
  - apply (signed_not_nan false), binary_round_signed.
  - apply (signed_not_nan true), binary_round_signed.
Qed.

Lemma SFconv_not_nan x : is_nan x = false -> is_nan (SFconv prec emax x) = false.
Proof.
  destruct x as [s|s| |s m e]; simpl; auto.
  intros _; destruct s; simpl.
  - apply (signed_not_nan true), binary_round_signed.
  - apply (signed_not_nan false), binary_round_signed.
Qed.

Lemma SFconv_nonneg x : nonneg x = true -> nonneg (SFconv prec emax x) = true.
Proof.
  destruct x as [s|s| |s m e]; simpl; auto.
  destruct s; simpl; try discriminate; intros _.
  apply signed_false_nonneg, binary_round_signed.
Qed.

(** A product of two numbers neither of which is NaN, one of which is
    finite, is not NaN. *)
Lemma SFmul_finite_not_nan x s m e :
  is_nan x = false -> is_nan (SFmul prec emax x (S754_finite s m e)) = false.
Proof.
  destruct x as [sx|sx| |sx mx ex]; simpl; auto.
  intros _.
  apply (signed_not_nan (xorb sx s)), binary_round_aux_signed; lia.
Qed.

(** A square is never negative, and is NaN only for NaN. *)
Lemma SFmul_square_nonneg x :
  is_nan x = false -> nonneg (SFmul prec emax x x) = true.
Proof.
  destruct x as [s|s| |s m e]; simpl; try discriminate; intros _.
  - now destruct s.
  - now destruct s.
  - apply signed_false_nonneg.
    replace (xorb s s) with false by now destruct s.
    apply binary_round_aux_signed; lia.
Qed.

Lemma SFadd_nonneg x y :
  nonneg x = true -> nonneg y = true -> nonneg (SFadd prec emax x y) = true.
Proof.
  destruct x as [sx|sx| |sx mx ex]; destruct y as [sy|sy| |sy my ey];
    simpl; try discriminate;
    destruct sx; simpl; try discriminate;
    destruct sy; simpl; try discriminate; auto.
  intros _ _.
  apply signed_false_nonneg.
  apply binary_round_signed.
Qed.

Lemma div_eucl_fst_nonneg a b : 0 <= a -> 0 < b -> 0 <= fst (Z.div_eucl a b).
Proof.
  intros Ha Hb.
  change (fst (Z.div_eucl a b)) with (a / b).
  apply Z.div_pos; lia.
Qed.

Lemma SFdiv_nonneg x y :
  nonneg x = true -> pos_finite y = true -> nonneg (SFdiv prec emax x y) = true.
Proof.
  destruct y as [sy|sy| |sy my ey]; simpl; try discriminate.
  destruct sy; try discriminate; intros Hx _.
  destruct x as [sx|sx| |sx mx ex]; simpl in *; try discriminate;
    try (now rewrite xorb_false_r).
  destruct sx; simpl in Hx; try discriminate.
  unfold SFdiv_core_binary.
  set (s := _ - _ - Z.min _ _).
  set (m' := match s with Z0 => Zpos mx | Zpos _ => Z.shiftl (Zpos mx) s | Zneg _ => 0 end).
  assert (Hm' : 0 <= m').
  { subst m'; destruct s; try lia. apply Z.shiftl_nonneg; lia. }
  pose proof (div_eucl_fst_nonneg m' (Zpos my) Hm' ltac:(lia)) as Hq.
  destruct (Z.div_eucl m' (Zpos my)) as [q r]; simpl in Hq.
  apply signed_false_nonneg, binary_round_aux_signed; assumption.
Qed.

Lemma sqrtrem_fst_nonneg a : 0 <= fst (Z.sqrtrem a).
Proof. rewrite Z.sqrtrem_sqrt. apply Z.sqrt_nonneg. Qed.

Lemma SFsqrt_nonneg x : nonneg x = true -> nonneg (SFsqrt prec emax x) = true.
Proof.
  destruct x as [s|s| |s m e]; simpl; try discriminate;
    destruct s; simpl; try discriminate; auto.
  intros _.
  unfold SFsqrt_core_binary.
  set (m' := match _ with Z0 => Zpos m | Zpos _ => _ | Zneg _ => 0 end).
  pose proof (sqrtrem_fst_nonneg m') as Hq.
  destruct (Z.sqrtrem m') as [q r]; simpl in Hq.
  apply signed_false_nonneg, binary_round_aux_signed; assumption.
Qed.

(** Comparison with zero. *)
Lemma nonneg_zero_le x : nonneg x = true -> SFleb (S754_zero false) x = true.
Proof.
  destruct x as [s|s| |s m e]; simpl; try discriminate;
    destruct s; simpl; try discriminate; reflexivity.
Qed.

Lemma zero_lt_not_le x :
  SFltb (S754_zero false) x = true -> SFleb x (S754_zero false) = false.
Proof.
  destruct x as [s|s| |s m e]; simpl; try discriminate;
    destruct s; simpl; try discriminate; reflexivity.
Qed.

End Format.

End IEEE_facts.

(** ** Integer conversions are finite *)

Lemma digits2_pos_bound p : forall n, 0 <= n -> Zpos p < 2 ^ n -> Zpos (digits2_pos p) <= n.
Proof.
  assert (Hn : forall n, 0 <= n -> 1 < 2 ^ n -> 1 <= n).
  { intros n Hn H. destruct (Z.eq_dec n 0) as [->|]; [simpl in H; lia | lia]. }
  induction p as [p IH|p IH|]; intros n Hn0 H; simpl.
  - assert (1 <= n) by (apply Hn; lia).
    replace n with (Z.succ (n - 1)) in H by lia.
    rewrite Z.pow_succ_r in H by lia.
    specialize (IH (n - 1) ltac:(lia) ltac:(lia)). lia.
  - assert (1 <= n) by (apply Hn; lia).
    replace n with (Z.succ (n - 1)) in H by lia.
    rewrite Z.pow_succ_r in H by lia.
    specialize (IH (n - 1) ltac:(lia) ltac:(lia)). lia.
  - apply Hn; lia.
Qed.

Lemma digits2_pos_iter_xO p k :
  Zpos (digits2_pos (Pos.iter xO p k)) = Zpos (digits2_pos p) + Zpos k.
Proof.
  induction k as [|k IH] using Pos.peano_ind.
  - simpl. lia.
  - rewrite Pos.iter_succ. simpl. lia.
Qed.

(** A magnitude that is already in canonical form is not changed by
    rounding. *)
Lemma binary_round_aux_canonical prec emax s m e :
  canonical_mantissa prec emax m e = true -> (e <=? emax - prec) = true ->
  binary_round_aux prec emax s (Zpos m) e loc_Exact = S754_finite s m e.
Proof.
  unfold canonical_mantissa; intros Hc He.
  apply Z.eqb_eq in Hc.
  unfold binary_round_aux, shr_fexp.
  cbn [Zdigits2 shr_record_of_loc].
  rewrite Hc, Z.sub_diag.
  cbn [shr shr_m loc_of_shr_record round_nearest_even Zdigits2 shr_record_of_loc].
  rewrite Hc, Z.sub_diag.
  cbn [shr shr_m].
  now rewrite He.
Qed.

(** A positive [int] converts to a positive finite [double]. *)
Lemma double_of_int_pos_finite z :
  0 < z <= INT_MAX -> IEEE.pos_finite (double_of_int z) = true.
Proof.
  intros [H0 H1]. destruct z as [|p|p]; try lia.
  assert (H2 : Zpos p < 2 ^ 53) by (unfold INT_MAX in H1; change (2 ^ 53) with 9007199254740992; lia).
  unfold double_of_int, IEEE.SFofZ, binary_normalize, binary_round.
  pose proof (digits2_pos_bound p 53 ltac:(lia) H2) as Hd.
  assert (Hf : fexp 53 1024 (Zpos (digits2_pos p) + 0) = Zpos (digits2_pos p) - 53).
  { unfold fexp, emin. lia. }
  rewrite Hf. unfold shl_align.
  destruct (Zpos (digits2_pos p) - 53 - 0) as [|d|d] eqn:E; try lia.
  - rewrite binary_round_aux_canonical; [reflexivity| |reflexivity].
    unfold canonical_mantissa. rewrite Hf. apply Z.eqb_eq. lia.
  - rewrite binary_round_aux_canonical; [reflexivity| |].
    + unfold canonical_mantissa. rewrite digits2_pos_iter_xO.
      apply Z.eqb_eq. unfold fexp, emin. lia.
    + apply Z.leb_le. lia.
Qed.

(** ** Framing lemmas *)

Lemma io_only_refl w : io_only w w.
Proof. now split. Qed.

Lemma io_only_trans w1 w2 w3 : io_only w1 w2 -> io_only w2 w3 -> io_only w1 w3.
Proof. intros [] []; split; congruence. Qed.

Lemma silent_refl w : silent w w.
Proof. split; [apply io_only_refl | reflexivity]. Qed.

Lemma silent_trans w1 w2 w3 : silent w1 w2 -> silent w2 w3 -> silent w1 w3.
Proof.
  intros [H1 E1] [H2 E2]; split; [eapply io_only_trans; eauto | congruence].
Qed.

Lemma io_only_set_Serial s w : io_only w (set_Serial s w).
Proof. now split. Qed.

Lemma silent_time_passes w : silent w (set_Serial {| rx := elapse (rx (Serial w)); tx := tx (Serial w) |} w).
Proof. split; [apply io_only_set_Serial | reflexivity]. Qed.

Lemma silent_after_sampling n w : silent w (after_sampling n w).
Proof. now repeat split. Qed.

(** ** The sampler computes the root mean square *)

Lemma bind_eq {A B} (c : M A) (k : A -> M B) w :
  bind c k w = match c w with Some (a, w') => k a w' | None => None end.
Proof. reflexivity. Qed.

Lemma after_sampling_step n w :
  after_sampling n
    (set_Serial {| rx := elapse (rx (Serial w)); tx := tx (Serial w) |}
       (set_ads {| ads_present := ads_present (ads w); ads_gain := ads_gain (ads w);
                   ads_conversions := ads_conversions (ads w);
                   ads_next := S (ads_next (ads w)) |} w))
  = after_sampling (S n) w.
Proof.
  unfold after_sampling, set_Serial, set_ads; simpl.
  rewrite <- Nat.iter_succ_r; simpl.
  do 3 f_equal. lia.
Qed.

Lemma measure_vrms_loop_spec n : forall sumsq w,
  measure_vrms_loop n sumsq w
  = Some (fold_left (fun sum v => double_add sum (square v))
                    (map voltage (raw_readings w n)) sumsq,
          after_sampling n w).
Proof.
  induction n as [|n IH]; intros sumsq w.
  - simpl. unfold ret, after_sampling, set_Serial, set_ads; simpl.
    rewrite Nat.add_0_r.
    destruct w as [cf t0 [r t] [p g c k] pr cl st j]; reflexivity.
  - cbn [measure_vrms_loop].
    unfold bind at 1, ads_readADC_Differential_0_1.
    unfold bind at 1, delayMicroseconds, time_passes, modify.
    rewrite IH. f_equal. f_equal.
    exact (after_sampling_step n w).
Qed.

Lemma measure_vrms_spec samples w :
  measure_vrms samples w
  = Some (root_mean_square samples (raw_readings w (Z.to_nat samples)),
          after_sampling (Z.to_nat samples) w).
Proof.
  unfold measure_vrms. rewrite bind_eq, measure_vrms_loop_spec. reflexivity.
Qed.

Lemma measure_irms_spec w :
  measure_irms w
  = Some (float_mul (root_mean_square SAMPLES (raw_readings w (Z.to_nat SAMPLES)))
                    (calibrationFactor w),
          after_sampling (Z.to_nat SAMPLES) w).
Proof.
  unfold measure_irms. rewrite bind_eq, measure_vrms_spec. reflexivity.
Qed.

Lemma ADS_LSB_value : ADS_LSB = S754_finite false 8589935 (-37).
Proof. reflexivity. Qed.

(** The literals are the correctly rounded quotients of their decimal
    numerators and denominators. *)
Example lit_2_048f_value :
  lit_2_048f = float_div (float_of_int 2048) (float_of_int 1000)
  /\ lit_32768f = float_of_int 32768
  /\ lit_0_001f = float_div (float_of_int 1) (float_of_int 1000)
  /\ lit_5f = float_of_int 5
  /\ lit_1000f = float_of_int 1000.
Proof. repeat split. Qed.

(** ** Sign of the root mean square *)

Lemma voltage_not_nan raw : IEEE.is_nan (voltage raw) = false.
Proof.
  unfold voltage, float_mul. rewrite ADS_LSB_value.
  apply IEEE_facts.SFmul_finite_not_nan, IEEE_facts.SFofZ_not_nan.
Qed.

Lemma square_nonneg v : IEEE.is_nan v = false -> IEEE.nonneg (square v) = true.
Proof.
  intros H. unfold square, double_mul, double_of_float.
  apply IEEE_facts.SFmul_square_nonneg, IEEE_facts.SFconv_not_nan, H.
Qed.

Lemma sum_of_squares_nonneg vs :
  Forall (fun v => IEEE.is_nan v = false) vs ->
  IEEE.nonneg (sum_of_squares vs) = true.
Proof.
  unfold sum_of_squares.
  assert (H0 : IEEE.nonneg lit_0 = true) by reflexivity.
  revert H0. generalize lit_0 as acc.
  induction vs as [|v vs IH]; intros acc Hacc Hvs; simpl; auto.
  inversion Hvs as [|? ? Hv Hvs']; subst.
  apply IH; auto.
  apply IEEE_facts.SFadd_nonneg; auto using square_nonneg.
Qed.

Lemma root_mean_square_nonneg samples raws :
  0 < samples <= INT_MAX ->
  IEEE.nonneg (root_mean_square samples raws) = true.
Proof.
  intros Hs. unfold root_mean_square, mean_square, float_sqrt, float_of_double, double_div.
  apply IEEE_facts.SFsqrt_nonneg, IEEE_facts.SFconv_nonneg, IEEE_facts.SFdiv_nonneg.
  - apply sum_of_squares_nonneg.
    induction raws as [|raw raws IH]; simpl; constructor; auto using voltage_not_nan.
  - now apply double_of_int_pos_finite.
Qed.

(** ** Claims about the sampler *)

(** C5: for every [samples > 0] and every sequence of raw readings,
    [measure_vrms samples] returns the square root of the mean of the
    squared voltages of the next [samples] readings, each voltage being
    the raw reading times the per-bit scale [ADS_LSB] (the binary32
    quotient of 2.048 and 32768), with the squares summed in [double]. *)
Theorem measure_vrms_root_mean_square (samples : Z) (w : World) :
  0 < samples ->
  measure_vrms samples w
  = Some (root_mean_square samples (raw_readings w (Z.to_nat samples)),
          after_sampling (Z.to_nat samples) w)
  /\ length (raw_readings w (Z.to_nat samples)) = Z.to_nat samples
  /\ (forall raw, voltage raw = float_mul (float_of_int raw) ADS_LSB)
  /\ ADS_LSB = float_div lit_2_048f lit_32768f.
Proof.
  intros _. split; [apply measure_vrms_spec|].
  split; [|split; reflexivity].
  unfold raw_readings. now rewrite length_map, length_seq.
Qed.

Lemma measure_vrms_root_mean_square_witness :
  0 < 4
  /\ measure_vrms 4 (bench [] ∅)
     = Some (S754_finite false 14529495 (-28), after_sampling 4 (bench [] ∅)).
Proof.
  split; [lia|].
  destruct (measure_vrms_root_mean_square 4 (bench [] ∅)) as [H _]; [lia|].
  rewrite H. reflexivity.
Defined.

(** C3: [measure_irms] returns exactly the product of what
    [measure_vrms(SAMPLES)] returns and [calibrationFactor]; nothing is
    subtracted or added, and no second measurement is taken: the
    converter is read [SAMPLES] times in all. *)
Theorem measure_irms_pure_product (w : World) :
  exists vrms w',
    measure_vrms SAMPLES w = Some (vrms, w')
    /\ measure_irms w = Some (float_mul vrms (calibrationFactor w), w')
    /\ ads_next (ads w') = (ads_next (ads w) + Z.to_nat SAMPLES)%nat.
Proof.
  eexists _, _. split; [apply measure_vrms_spec|].
  split; [apply measure_irms_spec | reflexivity].
Qed.

(** C9: for every [samples > 0] (an [int]) and every sequence of raw
    readings, [measure_vrms] returns a value [v] with [0 <= v]; in
    particular it is not NaN. *)
Theorem measure_vrms_nonneg (samples : Z) (w : World) :
  0 < samples <= INT_MAX ->
  exists v w', measure_vrms samples w = Some (v, w')
               /\ float_leb lit_0f v = true.
Proof.
  intros Hs. eexists _, _. split; [apply measure_vrms_spec|].
  apply IEEE_facts.nonneg_zero_le. now apply root_mean_square_nonneg.
Qed.

Lemma measure_vrms_nonneg_witness :
  0 < 4 <= INT_MAX
  /\ exists v w', measure_vrms 4 (bench [] ∅) = Some (v, w')
                  /\ float_leb lit_0f v = true.
Proof.
  split; [unfold INT_MAX; lia|].
  apply (measure_vrms_nonneg 4 (bench [] ∅)). unfold INT_MAX; lia.
Defined.

(** ** The polling loops *)

Lemma set_rx_same w : set_rx (rx (Serial w)) w = w.
Proof. destruct w as [cf t0 [r t] a p c st j]; reflexivity. Qed.

Lemma buffered_nonneg l : 0 <= buffered l.
Proof. induction l as [|[c|] l IH]; simpl; lia. Qed.

Lemma buffered_byte c l : (buffered (RxByte c :: l) =? 0) = false.
Proof. apply Z.eqb_neq. pose proof (buffered_nonneg l). simpl. lia. Qed.

Lemma char_of_int_byte c : char_of_int (Z.of_N (N_of_ascii c)) = c.
Proof.
  unfold char_of_int.
  pose proof (N_ascii_bounded c) as Hb.
  rewrite Z.mod_small by lia.
  rewrite N2Z.id. apply ascii_N_embedding.
Qed.

Lemma length_elapse l : (length (elapse l) <= length l)%nat.
Proof. induction l as [|[c|] l IH]; simpl; lia. Qed.

Lemma In_elapse c l : In (RxByte c) (elapse l) <-> In (RxByte c) l.
Proof.
  induction l as [|[c'|] l IH]; simpl; [tauto| |].
  - rewrite IH. tauto.
  - split; [tauto|]. intros [H|H]; [discriminate | assumption].
Qed.

Lemma while_not_available_empty fuel : forall w,
  rx (Serial w) = [] -> while_not_available fuel w = None.
Proof.
  induction fuel as [|fuel IH]; intros w Hw; [reflexivity|].
  cbn [while_not_available]. unfold bind at 1, Serial_available, get.
  rewrite Hw. cbn [buffered Z.eqb].
  unfold bind, delay, time_passes, modify. apply IH. simpl. now rewrite Hw.
Qed.

Lemma while_not_available_spec fuel : forall w,
  (length (rx (Serial w)) < fuel)%nat ->
  while_not_available fuel w
  = match skip_gaps (rx (Serial w)) with
    | [] => None
    | l => Some (tt, set_rx l w)
    end.
Proof.
  induction fuel as [|fuel IH]; intros w Hlen; [lia|].
  destruct (rx (Serial w)) as [|[c|] l] eqn:Hrx.
  - now apply while_not_available_empty.
  - cbn [while_not_available]. unfold bind at 1, Serial_available, get.
    rewrite Hrx, buffered_byte. cbn [skip_gaps].
    unfold ret. rewrite <- Hrx, set_rx_same. reflexivity.
  - cbn [while_not_available]. unfold bind at 1, Serial_available, get.
    rewrite Hrx. cbn [buffered Z.eqb].
    unfold bind, delay, time_passes, modify.
    rewrite IH; simpl; rewrite Hrx; simpl in *; [|lia].
    destruct (skip_gaps l); reflexivity.
Qed.

(** Waiting for input returns exactly when a byte arrives, with the
    gaps before it elapsed. *)
Lemma await_input_spec w :
  await_input w
  = match skip_gaps (rx (Serial w)) with
    | [] => None
    | l => Some (tt, set_rx l w)
    end.
Proof. apply while_not_available_spec. unfold patience. lia. Qed.

Lemma skip_gaps_next_byte l c :
  next_byte l = Some c -> exists l', skip_gaps l = RxByte c :: l'.
Proof.
  unfold next_byte. destruct (skip_gaps l) as [|[c'|] l']; try discriminate.
  intros [= ->]. now exists l'.
Qed.

(** [None] is a wait for a byte that never comes. *)
Lemma await_input_blocks w :
  await_input w = None <-> forall c, ~ In (RxByte c) (rx (Serial w)).
Proof.
  rewrite await_input_spec.
  induction (rx (Serial w)) as [|[c|] l IH]; simpl.
  - split; [intros _ c []|reflexivity].
  - split; [discriminate|]. intros H. destruct (H c). now left.
  - rewrite IH. split; intros H c; [intros [E|E]; [discriminate|now apply (H c)]|].
    intros E. apply (H c). now right.
Qed.

Lemma while_available_read_spec fuel : forall w,
  (length (rx (Serial w)) < fuel)%nat ->
  while_available_read fuel w = Some (tt, set_rx (skip_bytes (rx (Serial w))) w).
Proof.
  induction fuel as [|fuel IH]; intros w Hlen; [lia|].
  cbn [while_available_read]. unfold bind at 1, Serial_available, get.
  destruct (rx (Serial w)) as [|[c|] l] eqn:Hrx.
  - cbn [buffered Z.eqb skip_bytes]. unfold ret. now rewrite <- Hrx, set_rx_same.
  - rewrite buffered_byte. unfold bind, Serial_read. rewrite Hrx.
    rewrite IH; simpl in *; [reflexivity | lia].
  - cbn [buffered Z.eqb skip_bytes]. unfold ret. now rewrite <- Hrx, set_rx_same.
Qed.

(** Emptying the receive buffer always returns. *)
Lemma flush_input_total w :
  flush_input w = Some (tt, set_rx (skip_bytes (rx (Serial w))) w).
Proof. apply while_available_read_spec. unfold patience. lia. Qed.

Lemma read_line_loop_empty fuel : forall s w,
  rx (Serial w) = [] -> read_line_loop fuel s w = None.
Proof.
  induction fuel as [|fuel IH]; intros s w Hw; [reflexivity|].
  cbn [read_line_loop]. unfold bind at 1, Serial_available, get.
  rewrite Hw. cbn [buffered Z.eqb].
  unfold bind, delay, time_passes, modify. apply IH. simpl. now rewrite Hw.
Qed.

Lemma read_line_loop_blocks fuel : forall s w,
  (length (rx (Serial w)) < fuel)%nat ->
  read_line_loop fuel s w = None <-> ~ In (RxByte LF) (rx (Serial w)).
Proof.
  induction fuel as [|fuel IH]; intros s w Hlen; [lia|].
  destruct (rx (Serial w)) as [|[c|] l] eqn:Hrx.
  - rewrite read_line_loop_empty by assumption. simpl; tauto.
  - cbn [read_line_loop]. unfold bind at 1, Serial_available, get.
    rewrite Hrx, buffered_byte.
    unfold bind at 1, Serial_read. rewrite Hrx, char_of_int_byte.
    simpl in Hlen.
    destruct (Ascii.eqb c CR) eqn:Ecr; [|destruct (Ascii.eqb c LF) eqn:Elf].
    + apply Ascii.eqb_eq in Ecr; subst c.
      rewrite IH by (simpl; lia). simpl.
      split; [intros H [E|E]; [discriminate | tauto] | tauto].
    + apply Ascii.eqb_eq in Elf; subst c.
      unfold ret. simpl. split; [discriminate | intros H; destruct H; now left].
    + apply Ascii.eqb_neq in Elf.
      unfold bind, delay, time_passes, modify.
      rewrite IH by (simpl; pose proof (length_elapse l); lia).
      simpl. rewrite In_elapse.
      split; [intros H [E|E]; [congruence | tauto] | tauto].
  - cbn [read_line_loop]. unfold bind at 1, Serial_available, get.
    rewrite Hrx. cbn [buffered Z.eqb].
    unfold bind, delay, time_passes, modify.
    simpl in Hlen.
    rewrite IH by (simpl; rewrite Hrx; simpl; lia).
    simpl. rewrite Hrx. simpl.
    split; [intros H [E|E]; [discriminate | tauto] | tauto].
Qed.

(** Reading the line returns exactly when a line feed arrives. *)
Lemma read_line_blocks w :
  read_line w = None <-> ~ In (RxByte LF) (rx (Serial w)).
Proof. apply read_line_loop_blocks. unfold patience. lia. Qed.

Lemma silent_set_rx l w : silent w (set_rx l w).
Proof. split; [apply io_only_set_Serial | reflexivity]. Qed.

Lemma read_line_loop_silent fuel : forall s w s' w',
  read_line_loop fuel s w = Some (s', w') -> silent w w'.
Proof.
  induction fuel as [|fuel IH]; intros s w s' w'; [discriminate|].
  cbn [read_line_loop]. unfold bind at 1, Serial_available, get.
  destruct (buffered (rx (Serial w)) =? 0).
  - unfold bind, delay, time_passes, modify. intros H.
    eapply silent_trans; [apply silent_time_passes | eapply IH, H].
  - unfold bind at 1, Serial_read.
    destruct (rx (Serial w)) as [|[c|] l] eqn:Hrx.
    + destruct (Ascii.eqb _ CR); [apply IH|].
      destruct (Ascii.eqb _ LF); [intros [= _ <-]; apply silent_refl|].
      unfold bind, delay, time_passes, modify. intros H.
      eapply silent_trans; [apply silent_time_passes | eapply IH, H].
    + assert (Hs : silent w (set_Serial {| rx := l; tx := tx (Serial w) |} w))
        by apply silent_set_rx.
      destruct (Ascii.eqb _ CR); [intros H; eapply silent_trans; [exact Hs | eapply IH, H]|].
      destruct (Ascii.eqb _ LF); [intros [= _ <-]; exact Hs|].
      unfold bind, delay, time_passes, modify. intros H.
      eapply silent_trans; [exact Hs|].
      eapply silent_trans; [apply silent_time_passes | eapply IH, H].
    + destruct (Ascii.eqb _ CR); [apply IH|].
      destruct (Ascii.eqb _ LF); [intros [= _ <-]; apply silent_refl|].
      unfold bind, delay, time_passes, modify. intros H.
      eapply silent_trans; [apply silent_time_passes | eapply IH, H].
Qed.

Lemma read_line_silent w s w' : read_line w = Some (s, w') -> silent w w'.
Proof. apply read_line_loop_silent. Qed.

(** ** Framing of the device operations *)

Lemma preserves_ret {A} R (a : A) : (forall w, R w w) -> preserves R (ret a).
Proof. intros HR w a' w' [= _ <-]. apply HR. Qed.

Lemma preserves_bind {A B} R (c : M A) (k : A -> M B) :
  (forall w1 w2 w3, R w1 w2 -> R w2 w3 -> R w1 w3) ->
  preserves R c -> (forall a, preserves R (k a)) -> preserves R (bind c k).
Proof.
  intros HT Hc Hk w b w'. unfold bind.
  destruct (c w) as [[a w1]|] eqn:E; [|discriminate].
  intros H. eapply HT; [eapply Hc, E | eapply Hk, H].
Qed.

Lemma preserves_weaken {A} (R R' : World -> World -> Prop) (c : M A) :
  (forall w w', R w w' -> R' w w') -> preserves R c -> preserves R' c.
Proof. intros HR Hc w a w' H. eapply HR, Hc, H. Qed.

Lemma silent_io_only w w' : silent w w' -> io_only w w'.
Proof. now intros []. Qed.

Lemma emit_io_only evs : preserves io_only (emit evs).
Proof. intros w [] w' [= <-]. apply io_only_set_Serial. Qed.

Lemma await_input_silent : preserves silent await_input.
Proof.
  intros w [] w'. rewrite await_input_spec.
  destruct (skip_gaps _); [discriminate|]. intros [= <-]. apply silent_set_rx.
Qed.

Lemma flush_input_silent : preserves silent flush_input.
Proof. intros w [] w'. rewrite flush_input_total. intros [= <-]. apply silent_set_rx. Qed.

Lemma Some_pair_inj {A B} (a a' : A) (b b' : B) :
  Some (a, b) = Some (a', b') -> a = a' /\ b = b'.
Proof. intros H. injection H. auto. Qed.

Lemma measure_vrms_silent samples : preserves silent (measure_vrms samples).
Proof.
  intros w v w'. rewrite measure_vrms_spec.
  intros H. apply Some_pair_inj in H as [_ <-]. apply silent_after_sampling.
Qed.

Lemma measure_irms_silent : preserves silent measure_irms.
Proof.
  intros w v w'. rewrite measure_irms_spec.
  intros H. apply Some_pair_inj in H as [_ <-]. apply silent_after_sampling.
Qed.

Lemma read_line_preserves_silent : preserves silent read_line.
Proof. intros w s w'. apply read_line_silent. Qed.

Lemma Serial_read_silent : preserves silent Serial_read.
Proof.
  intros w c w'. unfold Serial_read.
  destruct (rx (Serial w)) as [|[b|] l]; intros [= _ <-];
    try apply silent_refl. apply silent_set_rx.
Qed.

Lemma Serial_available_silent : preserves silent Serial_available.
Proof. intros w n w' [= _ <-]. apply silent_refl. Qed.

Lemma millis_silent : preserves silent millis.
Proof. intros w n w' [= _ <-]. now repeat split. Qed.

Lemma static_t0_silent : preserves silent static_t0.
Proof.
  intros w t w'. unfold static_t0, bind, get.
  destruct (loop_t0 w); intros [= _ <-]; [apply silent_refl | now repeat split].
Qed.

Ltac frame_silent c :=
  lazymatch c with
  | await_input => apply await_input_silent
  | flush_input => apply flush_input_silent
  | measure_vrms _ => apply measure_vrms_silent
  | measure_irms => apply measure_irms_silent
  | read_line => apply read_line_preserves_silent
  | Serial_read => apply Serial_read_silent
  | Serial_available => apply Serial_available_silent
  | millis => apply millis_silent
  | static_t0 => apply static_t0_silent
  end.

Ltac frame_io :=
  repeat
    lazymatch goal with
    | |- preserves io_only (bind _ _) =>
        apply preserves_bind; [exact io_only_trans | | intros ?]
    | |- preserves io_only (emit _) => apply emit_io_only
    | |- preserves io_only (ret _) => apply preserves_ret; apply io_only_refl
    | |- preserves io_only ?c =>
        apply (preserves_weaken silent io_only _ silent_io_only); frame_silent c
    end.

(** ** The phases of a calibration *)

Lemma calibration_measure_io_only : preserves io_only calibration_measure.
Proof.
  unfold calibration_measure, Serial_println, Serial_print, Serial_print_float.
  frame_io.
Qed.

(** The measurement phase returns the root mean square of the next
    [SAMPLES] conversions, once a byte has arrived. *)
Ltac run :=
  cbv beta iota delta
    [bind ret get modify emit Serial_print Serial_println Serial_println_empty
     Serial_print_float Serial_println_float Serial_begin
     set_rx set_Serial set_ads set_prefs set_clock set_nvs
     set_calibrationFactor set_loop_t0
     rx tx Serial ads prefs clock nvs nvs_journal calibrationFactor loop_t0
     ads_present ads_gain ads_conversions ads_next prefs_namespace
     clock_readings clock_next].

Lemma calibration_measure_spec w :
  calibration_measure w
  = match skip_gaps (rx (Serial w)) with
    | [] => None
    | l =>
        let vrms := root_mean_square SAMPLES (raw_readings w (Z.to_nat SAMPLES)) in
        Some (vrms,
              set_Serial
                {| rx := Nat.iter (Z.to_nat SAMPLES) elapse (skip_bytes l);
                   tx := tx (Serial w)
                         ++ [TxStr "=== Interactive calibration ==="; TxLn]
                         ++ [TxStr "Place known load (resistive). Press ENTER to start measure."; TxLn]
                         ++ [TxStr "Measure in progress..."; TxLn]
                         ++ [TxStr "Vrms mesure = "]
                         ++ [TxFloat (float_mul vrms lit_1000f) 4]
                         ++ [TxStr " mV"; TxLn]
                         ++ [TxStr "Put known current value in A :"; TxLn] |}
                (set_ads {| ads_present := ads_present (ads w); ads_gain := ads_gain (ads w);
                            ads_conversions := ads_conversions (ads w);
                            ads_next := (ads_next (ads w) + Z.to_nat SAMPLES)%nat |} w))
    end.
Proof.
  unfold calibration_measure. generalize SAMPLES; intros n.
  destruct w as [cf t0 [r t] [p g c k] pr cl st j].
  run. rewrite await_input_spec. run.
  destruct (skip_gaps r) as [|e l] eqn:E; [reflexivity|].
  rewrite flush_input_total. run.
  rewrite measure_vrms_spec.
  unfold after_sampling, raw_readings. run.
  repeat rewrite <- app_assoc. reflexivity.
Qed.

(** [interactiveCalibration] is its three phases in sequence. *)
Lemma interactiveCalibration_phases toFloat w :
  interactiveCalibration toFloat w
  = match calibration_measure w with
    | Some (vrms, w1) =>
        match read_line w1 with
        | Some (s, w2) =>
            if float_leb (toFloat s) lit_0f
            then Serial_println "Invalid value." w2
            else calibration_commit vrms (toFloat s) w2
        | None => None
        end
    | None => None
    end.
Proof.
  unfold interactiveCalibration, calibration_measure, calibration_commit.
  generalize SAMPLES; intros n.
  run.
  destruct (await_input _) as [[[] w1]|]; [|reflexivity]. run.
  destruct (flush_input _) as [[[] w2]|]; [|reflexivity]. run.
  destruct (measure_vrms n _) as [[vrms w3]|]; [|reflexivity]. run.
  destruct (read_line _) as [[s w4]|]; [|reflexivity].
  destruct (float_leb (toFloat s) lit_0f); reflexivity.
Qed.

Lemma confirm_byte c :
  Ascii.eqb c "y" || Ascii.eqb c "Y" = true <-> c = "y"%char \/ c = "Y"%char.
Proof.
  rewrite orb_true_iff, !Ascii.eqb_eq. tauto.
Qed.

(** The commit phase, once the confirmation byte [c] arrives. *)
Lemma calibration_commit_spec vrms iknown w c :
  next_byte (rx (Serial w)) = Some c ->
  exists w',
    calibration_commit vrms iknown w = Some (tt, w')
    /\ calibrationFactor w' = float_div iknown vrms
    /\ prefs w' = prefs w
    /\ (if Ascii.eqb c "y" || Ascii.eqb c "Y" then
          match prefs_namespace (prefs w) with
          | Some ns =>
              nvs w' = <[(ns, PREF_KEY) := float_div iknown vrms]> (nvs w)
              /\ nvs_journal w'
                 = nvs_journal w ++ [NvsPut ns PREF_KEY (float_div iknown vrms)]
          | None => nvs w' = nvs w /\ nvs_journal w' = nvs_journal w
          end
          /\ tx (Serial w')
             = tx (Serial w)
               ++ [TxStr "New factor calculated = "; TxFloat (float_div iknown vrms) 6; TxLn;
                   TxStr "Save ? (y/n)"; TxLn;
                   TxStr "Factor saved in NVS."; TxLn;
                   TxStr "=== Calibration finished ==="; TxLn]
        else
          nvs w' = nvs w /\ nvs_journal w' = nvs_journal w
          /\ tx (Serial w')
             = tx (Serial w)
               ++ [TxStr "New factor calculated = "; TxFloat (float_div iknown vrms) 6; TxLn;
                   TxStr "Save ? (y/n)"; TxLn;
                   TxStr "Calibration unsaved."; TxLn;
                   TxStr "=== Calibration finished ==="; TxLn]).
Proof.
  intros Hc. apply skip_gaps_next_byte in Hc as [l Hl].
  unfold calibration_commit.
  set (newFactor := float_div iknown vrms). clearbody newFactor.
  destruct w as [cf t0 [r t] a [pr] cl st j]. run.
  rewrite await_input_spec. run. cbn [rx Serial] in Hl. rewrite Hl. run.
  unfold Serial_read. run. rewrite char_of_int_byte.
  destruct (Ascii.eqb c "y" || Ascii.eqb c "Y").
  - unfold prefs_putFloat. run. destruct pr as [ns|]; run;
      (eexists; split; [reflexivity|]); run;
      repeat rewrite <- app_assoc; repeat split; reflexivity.
  - run. eexists; split; [reflexivity|]. run.
    repeat rewrite <- app_assoc; repeat split; reflexivity.
Qed.

(** The commit phase blocks when no confirmation byte ever arrives. *)
Lemma calibration_commit_blocks vrms iknown w :
  next_byte (rx (Serial w)) = None ->
  (forall c, ~ In (RxByte c) (rx (Serial w)))
  /\ calibration_commit vrms iknown w = None.
Proof.
  intros Hc.
  assert (Hs : skip_gaps (rx (Serial w)) = []).
  { unfold next_byte in Hc. destruct (skip_gaps (rx (Serial w))) as [|[c|] l] eqn:E; try discriminate; auto.
    exfalso. clear Hc. induction (rx (Serial w)) as [|[c|] l' IH]; simpl in E; try discriminate; auto. }
  split.
  - apply await_input_blocks. rewrite await_input_spec, Hs. reflexivity.
  - unfold calibration_commit.
    set (newFactor := float_div iknown vrms). clearbody newFactor.
    destruct w as [cf t0 [r t] a [pr] cl st j]. run.
    rewrite await_input_spec. run. cbn [rx Serial] in Hs. now rewrite Hs.
Qed.

(** ** A calibration run *)

(** A run whose known current is accepted ends in the commit phase on
    the memory it started with. *)
Lemma calibration_accepts toFloat w V w1 s w2 c :
  calibration_measure w = Some (V, w1) ->
  read_line w1 = Some (s, w2) ->
  float_leb (toFloat s) lit_0f = false ->
  next_byte (rx (Serial w2)) = Some c ->
  exists w',
    interactiveCalibration toFloat w = Some (tt, w')
    /\ calibrationFactor w' = float_div (toFloat s) V
    /\ prefs w' = prefs w
    /\ if Ascii.eqb c "y" || Ascii.eqb c "Y" then
         match prefs_namespace (prefs w) with
         | Some ns =>
             nvs w' = <[(ns, PREF_KEY) := float_div (toFloat s) V]> (nvs w)
             /\ nvs_journal w'
                = nvs_journal w ++ [NvsPut ns PREF_KEY (float_div (toFloat s) V)]
         | None => nvs w' = nvs w /\ nvs_journal w' = nvs_journal w
         end
       else nvs w' = nvs w /\ nvs_journal w' = nvs_journal w.
Proof.
  intros Hm Hr Hle Hc.
  pose proof (calibration_measure_io_only _ _ _ Hm) as [_ Hp1 Hn1 Hj1 _].
  pose proof (read_line_silent _ _ _ Hr) as [[_ Hp2 Hn2 Hj2 _] _].
  destruct (calibration_commit_spec V (toFloat s) w2 c Hc)
    as (w' & Hrun & Hcf & Hp & Hsave).
  exists w'. rewrite interactiveCalibration_phases, Hm, Hr, Hle.
  repeat split; auto; try congruence.
  rewrite Hp2, Hp1, Hn2, Hn1, Hj2, Hj1 in Hsave.
  destruct (Ascii.eqb c "y" || Ascii.eqb c "Y").
  - destruct Hsave as [Hsave _]. exact Hsave.
  - destruct Hsave as (? & ? & _). now split.
Qed.

(** C1: in a calibration run that measures the RMS voltage [V] and in
    which the known current parses to [I > 0], the new factor is
    [I / V] and [calibrationFactor] becomes that value, whatever byte
    answers the save prompt. *)
Theorem calibration_sets_factor (toFloat : string -> float)
    (w : World) (V : float) (w1 : World) (s : string) (w2 : World) (c : ascii) :
  calibration_measure w = Some (V, w1) ->
  read_line w1 = Some (s, w2) ->
  float_ltb lit_0f (toFloat s) = true ->
  next_byte (rx (Serial w2)) = Some c ->
  exists w',
    interactiveCalibration toFloat w = Some (tt, w')
    /\ V = root_mean_square SAMPLES (raw_readings w (Z.to_nat SAMPLES))
    /\ calibrationFactor w' = float_div (toFloat s) V.
Proof.
  intros Hm Hr Hpos Hc.
  apply IEEE_facts.zero_lt_not_le in Hpos.
  destruct (calibration_accepts toFloat w V w1 s w2 c Hm Hr Hpos Hc)
    as (w' & Hrun & Hcf & _).
  exists w'. repeat split; auto.
  rewrite calibration_measure_spec in Hm.
  destruct (skip_gaps (rx (Serial w))); [discriminate|].
  apply Some_pair_inj in Hm as [<- _]. reflexivity.
Qed.

Lemma calibration_sets_factor_witness :
  exists w',
    interactiveCalibration toFloat_decimal (bench_ready (operator "2.5" "n") ∅) = Some (tt, w')
    /\ calibrationFactor w' = S754_finite false 12840374 (-18).
Proof.
  set (w := bench_ready (operator "2.5" "n") ∅).
  destruct (calibration_sets_factor toFloat_decimal w
              (result_of calibration_measure w lit_0f)
              (world_after calibration_measure w)
              (result_of read_line (world_after calibration_measure w) EmptyString)
              (world_after read_line (world_after calibration_measure w))
              "n"%char)
    as (w' & Hrun & _ & Hcf).
  - vm_compute. reflexivity.
  - vm_compute. reflexivity.
  - vm_compute. reflexivity.
  - vm_compute. reflexivity.
  - exists w'. split; [exact Hrun|]. rewrite Hcf. vm_compute. reflexivity.
Defined.

(** C2: in a calibration run in which the known current parses to a
    value [<= 0] (as text that is no number does, reading as 0),
    [interactiveCalibration] reports the invalid value and returns at
    once; [calibrationFactor], the store and the journal of its writes
    are what they were. *)
Theorem invalid_current_aborts (toFloat : string -> float)
    (w : World) (V : float) (w1 : World) (s : string) (w2 : World) :
  calibration_measure w = Some (V, w1) ->
  read_line w1 = Some (s, w2) ->
  float_leb (toFloat s) lit_0f = true ->
  exists w',
    interactiveCalibration toFloat w = Some (tt, w')
    /\ calibrationFactor w' = calibrationFactor w
    /\ nvs w' = nvs w
    /\ nvs_journal w' = nvs_journal w
    /\ tx (Serial w') = tx (Serial w2) ++ [TxStr "Invalid value."; TxLn]
    /\ rx (Serial w') = rx (Serial w2).
Proof.
  intros Hm Hr Hle.
  pose proof (calibration_measure_io_only _ _ _ Hm) as [Hc1 _ Hn1 Hj1 _].
  pose proof (read_line_silent _ _ _ Hr) as [[Hc2 _ Hn2 Hj2 _] _].
  eexists. rewrite interactiveCalibration_phases, Hm, Hr, Hle.
  split; [reflexivity|].
  simpl. repeat split; congruence.
Qed.

Lemma invalid_current_aborts_witness :
  (exists w',
     interactiveCalibration toFloat_decimal (bench_ready (operator "abc" "y") ∅) = Some (tt, w')
     /\ calibrationFactor w' = lit_5f /\ nvs w' = ∅ /\ nvs_journal w' = [])
  /\ (exists w',
        interactiveCalibration toFloat_decimal (bench_ready (operator "-1" "y") ∅) = Some (tt, w')
        /\ calibrationFactor w' = lit_5f /\ nvs w' = ∅ /\ nvs_journal w' = []).
Proof.
  split.
  - set (w := bench_ready (operator "abc" "y") ∅).
    destruct (invalid_current_aborts toFloat_decimal w
                (result_of calibration_measure w lit_0f)
                (world_after calibration_measure w)
                (result_of read_line (world_after calibration_measure w) EmptyString)
                (world_after read_line (world_after calibration_measure w)))
      as (w' & Hrun & Hcf & Hn & Hj & _).
    + vm_compute. reflexivity.
    + vm_compute. reflexivity.
    + vm_compute. reflexivity.
    + exists w'. repeat split; assumption.
  - set (w := bench_ready (operator "-1" "y") ∅).
    destruct (invalid_current_aborts toFloat_decimal w
                (result_of calibration_measure w lit_0f)
                (world_after calibration_measure w)
                (result_of read_line (world_after calibration_measure w) EmptyString)
                (world_after read_line (world_after calibration_measure w)))
      as (w' & Hrun & Hcf & Hn & Hj & _).
    + vm_compute. reflexivity.
    + vm_compute. reflexivity.
    + vm_compute. reflexivity.
    + exists w'. repeat split; assumption.
Defined.

(** C4: in a calibration run that reaches the save prompt, with the
    store opened on namespace [ns], the record is written, with the new
    factor, exactly when the confirmation byte is [y] or [Y]; on any
    other byte the store and the journal of its writes are unchanged.
    The live factor is the new factor in both cases. *)
Theorem save_iff_confirmed (toFloat : string -> float)
    (w : World) (V : float) (w1 : World) (s : string) (w2 : World)
    (c : ascii) (ns : string) :
  calibration_measure w = Some (V, w1) ->
  read_line w1 = Some (s, w2) ->
  float_leb (toFloat s) lit_0f = false ->
  next_byte (rx (Serial w2)) = Some c ->
  prefs_namespace (prefs w) = Some ns ->
  exists w',
    interactiveCalibration toFloat w = Some (tt, w')
    /\ calibrationFactor w' = float_div (toFloat s) V
    /\ (c = "y"%char \/ c = "Y"%char ->
        nvs w' = <[(ns, PREF_KEY) := float_div (toFloat s) V]> (nvs w)
        /\ nvs_journal w'
           = nvs_journal w ++ [NvsPut ns PREF_KEY (float_div (toFloat s) V)])
    /\ (~ (c = "y"%char \/ c = "Y"%char) ->
        nvs w' = nvs w /\ nvs_journal w' = nvs_journal w)
    /\ (nvs_journal w' <> nvs_journal w <-> c = "y"%char \/ c = "Y"%char).
Proof.
  intros Hm Hr Hle Hc Hns.
  destruct (calibration_accepts toFloat w V w1 s w2 c Hm Hr Hle Hc)
    as (w' & Hrun & Hcf & _ & Hsave).
  rewrite Hns in Hsave.
  exists w'. split; [exact Hrun|]. split; [exact Hcf|].
  destruct (Ascii.eqb c "y" || Ascii.eqb c "Y") eqn:E.
  - apply confirm_byte in E. destruct Hsave as [Hn Hj].
    split; [intros _; now split|]. split; [tauto|].
    split; [intros _; exact E|].
    intros _ Heq. rewrite Hj in Heq.
    apply (f_equal (@length _)) in Heq. rewrite length_app in Heq. simpl in Heq. lia.
  - assert (Hno : ~ (c = "y"%char \/ c = "Y"%char)).
    { intros H. apply confirm_byte in H. congruence. }
    destruct Hsave as [Hn Hj].
    split; [tauto|]. split; [intros _; now split|].
    split; [intros H; now destruct H | tauto].
Qed.

Lemma save_iff_confirmed_witness :
  (exists w',
     interactiveCalibration toFloat_decimal (bench_ready (operator "2.5" "y") ∅) = Some (tt, w')
     /\ nvs w' !! (PREF_NAMESPACE, PREF_KEY) = Some (S754_finite false 12840374 (-18)))
  /\ (exists w',
        interactiveCalibration toFloat_decimal (bench_ready (operator "2.5" "n") ∅) = Some (tt, w')
        /\ calibrationFactor w' = S754_finite false 12840374 (-18)
        /\ nvs w' = ∅).
Proof.
  split.
  - set (w := bench_ready (operator "2.5" "y") ∅).
    destruct (save_iff_confirmed toFloat_decimal w
                (result_of calibration_measure w lit_0f)
                (world_after calibration_measure w)
                (result_of read_line (world_after calibration_measure w) EmptyString)
                (world_after read_line (world_after calibration_measure w))
                "y"%char PREF_NAMESPACE)
      as (w' & Hrun & Hcf & Hyes & _).
    + vm_compute. reflexivity.
    + vm_compute. reflexivity.
    + vm_compute. reflexivity.
    + vm_compute. reflexivity.
    + reflexivity.
    + exists w'. split; [exact Hrun|].
      destruct Hyes as [Hn _]; [left; reflexivity|].
      rewrite Hn, lookup_insert_eq. vm_compute. reflexivity.
  - set (w := bench_ready (operator "2.5" "n") ∅).
    destruct (save_iff_confirmed toFloat_decimal w
                (result_of calibration_measure w lit_0f)
                (world_after calibration_measure w)
                (result_of read_line (world_after calibration_measure w) EmptyString)
                (world_after read_line (world_after calibration_measure w))
                "n"%char PREF_NAMESPACE)
      as (w' & Hrun & Hcf & _ & Hno & _).
    + vm_compute. reflexivity.
    + vm_compute. reflexivity.
    + vm_compute. reflexivity.
    + vm_compute. reflexivity.
    + reflexivity.
    + exists w'. split; [exact Hrun|]. split.
      * rewrite Hcf. vm_compute. reflexivity.
      * destruct Hno as [Hn _]; [|exact Hn].
        intros [H|H]; discriminate.
Defined.

(** C10: with the store opened on namespace [ns], a calibration run
    writes the store at most once, and what it writes is the value
    [calibrationFactor] holds at that moment: after a run the journal is
    either unchanged or extended by one write of the live factor, which
    is then the stored value; the latter happens when the confirmation
    byte is [y] or [Y]. *)
Theorem saved_factor_is_live_factor (toFloat : string -> float)
    (w : World) (V : float) (w1 : World) (s : string) (w2 : World)
    (c : ascii) (ns : string) :
  calibration_measure w = Some (V, w1) ->
  read_line w1 = Some (s, w2) ->
  float_leb (toFloat s) lit_0f = false ->
  next_byte (rx (Serial w2)) = Some c ->
  prefs_namespace (prefs w) = Some ns ->
  exists w',
    interactiveCalibration toFloat w = Some (tt, w')
    /\ (nvs_journal w' = nvs_journal w /\ nvs w' = nvs w
        \/ nvs_journal w' = nvs_journal w ++ [NvsPut ns PREF_KEY (calibrationFactor w')]
           /\ nvs w' !! (ns, PREF_KEY) = Some (calibrationFactor w'))
    /\ (c = "y"%char \/ c = "Y"%char ->
        nvs_journal w' = nvs_journal w ++ [NvsPut ns PREF_KEY (calibrationFactor w')]
        /\ nvs w' !! (ns, PREF_KEY) = Some (calibrationFactor w')).
Proof.
  intros Hm Hr Hle Hc Hns.
  destruct (calibration_accepts toFloat w V w1 s w2 c Hm Hr Hle Hc)
    as (w' & Hrun & Hcf & _ & Hsave).
  rewrite Hns in Hsave.
  exists w'. split; [exact Hrun|].
  destruct (Ascii.eqb c "y" || Ascii.eqb c "Y") eqn:E.
  - destruct Hsave as [Hn Hj].
    assert (Hw : nvs_journal w' = nvs_journal w ++ [NvsPut ns PREF_KEY (calibrationFactor w')]
                 /\ nvs w' !! (ns, PREF_KEY) = Some (calibrationFactor w')).
    { rewrite Hcf, Hn, Hj, lookup_insert_eq. now split. }
    split; [right; exact Hw | intros _; exact Hw].
  - destruct Hsave as [Hn Hj]. split; [left; now split|].
    intros H. apply confirm_byte in H. congruence.
Qed.

Lemma saved_factor_is_live_factor_witness :
  exists w',
    interactiveCalibration toFloat_decimal (bench_ready (operator "2.5" "Y") ∅) = Some (tt, w')
    /\ nvs_journal w' = [NvsPut PREF_NAMESPACE PREF_KEY (calibrationFactor w')]
    /\ nvs w' !! (PREF_NAMESPACE, PREF_KEY) = Some (calibrationFactor w').
Proof.
  set (w := bench_ready (operator "2.5" "Y") ∅).
  destruct (saved_factor_is_live_factor toFloat_decimal w
              (result_of calibration_measure w lit_0f)
              (world_after calibration_measure w)
              (result_of read_line (world_after calibration_measure w) EmptyString)
              (world_after read_line (world_after calibration_measure w))
              "Y"%char PREF_NAMESPACE)
    as (w' & Hrun & _ & Hyes).
  - vm_compute. reflexivity.
  - vm_compute. reflexivity.
  - vm_compute. reflexivity.
  - vm_compute. reflexivity.
  - reflexivity.
  - exists w'. split; [exact Hrun|]. apply Hyes. right; reflexivity.
Defined.

(** ** Start-up, commands and the periodic report *)

Ltac run_dev :=
  cbv beta iota zeta delta
    [bind ret get modify emit Serial_print Serial_println Serial_println_empty
     Serial_print_float Serial_println_float Serial_begin
     delay delayMicroseconds time_passes millis
     ads_begin ads_setGain prefs_begin prefs_isKey prefs_getFloat
     prefs_putFloat prefs_remove static_t0 negb
     set_rx set_Serial set_ads set_prefs set_clock set_nvs
     set_calibrationFactor set_loop_t0
     rx tx Serial ads prefs clock nvs nvs_journal calibrationFactor loop_t0
     ads_present ads_gain ads_conversions ads_next prefs_namespace
     clock_readings clock_next].

(** [setup] returns when the converter answers; it opens the store and
    loads the saved factor when there is one. *)
Lemma setup_spec w :
  ads_present (ads w) = true ->
  exists w',
    setup w = Some (tt, w')
    /\ prefs_namespace (prefs w') = Some PREF_NAMESPACE
    /\ calibrationFactor w'
       = match nvs w !! (PREF_NAMESPACE, PREF_KEY) with
         | Some v => v
         | None => calibrationFactor w
         end
    /\ nvs w' = nvs w
    /\ nvs_journal w' = nvs_journal w
    /\ tx (Serial w')
       = tx (Serial w)
         ++ [TxLn; TxStr "=== ESP32 SCT-013 RMS Monitor ==="; TxLn;
             TxStr (match nvs w !! (PREF_NAMESPACE, PREF_KEY) with
                    | Some _ => "Calibration factor = "
                    | None => "No saved calibration. Default factor = "
                    end);
             TxFloat (calibrationFactor w') 6; TxLn;
             TxStr "Serial Commands: c = calibrate, r = measure, d = plot factor, x = erase factor";
             TxLn;
             TxStr "----------------------------------------"; TxLn].
Proof.
  destruct w as [cf t0 [r t] [p g c k] pr cl st j]. cbn [ads ads_present].
  intros ->. unfold setup. run_dev.
  destruct (st !! (PREF_NAMESPACE, PREF_KEY)) as [v|] eqn:E.
  - rewrite bool_decide_eq_true_2 by eauto. run_dev. rewrite E. cbn [default from_option id].
    eexists; split; [reflexivity|]. run_dev.
    repeat rewrite <- app_assoc. repeat split; reflexivity.
  - rewrite bool_decide_eq_false_2 by (intros [? ?]; discriminate). run_dev.
    eexists; split; [reflexivity|]. run_dev.
    repeat rewrite <- app_assoc. repeat split; reflexivity.
Qed.

(** Without the converter [setup] never returns. *)
Lemma setup_halts w : ads_present (ads w) = false -> setup w = None.
Proof.
  destruct w as [cf t0 [r t] [p g c k] pr cl st j]. cbn [ads ads_present].
  intros ->. reflexivity.
Qed.

Lemma static_t0_total w : exists t0 w1, static_t0 w = Some (t0, w1).
Proof.
  unfold static_t0, bind, get. destruct (loop_t0 w); eexists _, _; reflexivity.
Qed.

Lemma millis_total w : exists now w1, millis w = Some (now, w1).
Proof. eexists _, _; reflexivity. Qed.

Lemma set_loop_t0_io_only t : preserves io_only (modify (set_loop_t0 t)).
Proof. intros w [] w' H. apply Some_pair_inj in H as [_ <-]. now split. Qed.

Lemma periodic_io_only : preserves io_only periodic.
Proof.
  unfold periodic, Serial_println, Serial_print, Serial_print_float.
  frame_io.
  match goal with |- preserves _ (if ?b then _ else _) => destruct b end;
    [|frame_io].
  frame_io.
  - match goal with |- preserves _ (if ?b then _ else _) => destruct b end; frame_io.
  - apply set_loop_t0_io_only.
Qed.

(** The periodic block always returns and leaves the memory alone. *)
Lemma periodic_total w :
  exists w', periodic w = Some (tt, w') /\ io_only w w'.
Proof.
  assert (H : exists w', periodic w = Some (tt, w')).
  { destruct (static_t0_total w) as (t0 & w1 & Ht).
    destruct (millis_total w1) as (now & w2 & Hm).
    unfold periodic. rewrite bind_eq, Ht, bind_eq, Hm.
    destruct (2000 <=? uint32_wrap (now - t0)); [|eexists; reflexivity].
    rewrite bind_eq, measure_irms_spec.
    set (i := float_mul _ _). clearbody i.
    destruct (float_ltb i IGNORE_THRESHOLD_A); eexists; reflexivity. }
  destruct H as [w' H]. exists w'. split; [exact H|].
  eapply periodic_io_only, H.
Qed.

(** The periodic report, when it is due. *)
Lemma periodic_due w t0 w1 now w2 :
  static_t0 w = Some (t0, w1) ->
  millis w1 = Some (now, w2) ->
  2000 <= uint32_wrap (now - t0) ->
  exists i w3 w',
    measure_irms w2 = Some (i, w3)
    /\ periodic w = Some (tt, w')
    /\ tx (Serial w')
       = tx (Serial w)
         ++ (if float_ltb i IGNORE_THRESHOLD_A
             then [TxStr "I_rms <"; TxFloat IGNORE_THRESHOLD_A 3; TxStr " A (noise)"; TxLn]
             else [TxStr "I_rms: "; TxFloat i 4; TxStr " A"; TxLn]).
Proof.
  intros Ht Hm Hdue.
  pose proof (static_t0_silent _ _ _ Ht) as [_ Ht1].
  pose proof (millis_silent _ _ _ Hm) as [_ Ht2].
  unfold periodic. rewrite bind_eq, Ht, bind_eq, Hm.
  apply Z.leb_le in Hdue. rewrite Hdue.
  rewrite bind_eq, measure_irms_spec.
  set (i := float_mul _ _). clearbody i.
  exists i, (after_sampling (Z.to_nat SAMPLES) w2).
  destruct (float_ltb i IGNORE_THRESHOLD_A);
    (eexists; split; [reflexivity|]; split; [reflexivity|]);
    simpl; rewrite Ht2, Ht1, <- !app_assoc; reflexivity.
Qed.

(** The forced measurement. *)
Lemma dispatch_r toFloat w :
  exists i w1 w',
    measure_irms w = Some (i, w1)
    /\ dispatch toFloat "r" w = Some (tt, w')
    /\ io_only w w'
    /\ tx (Serial w')
       = tx (Serial w) ++ [TxStr "I_rms (forced) = "; TxFloat i 6; TxStr " A"; TxLn].
Proof.
  unfold dispatch. cbn [Ascii.eqb Bool.eqb].
  rewrite bind_eq, measure_irms_spec.
  set (i := float_mul _ _). clearbody i.
  exists i, (after_sampling (Z.to_nat SAMPLES) w).
  eexists; split; [reflexivity|]; split; [reflexivity|].
  split; [now split|].
  simpl. rewrite <- !app_assoc. reflexivity.
Qed.

(** The display command. *)
Lemma dispatch_d toFloat w :
  exists w',
    dispatch toFloat "d" w = Some (tt, w')
    /\ io_only w w'
    /\ tx (Serial w')
       = tx (Serial w) ++ [TxStr "Calibration factor = "; TxFloat (calibrationFactor w) 6; TxLn].
Proof.
  unfold dispatch. cbn [Ascii.eqb Bool.eqb].
  eexists; split; [reflexivity|]. split; [now split|].
  simpl. rewrite <- !app_assoc. reflexivity.
Qed.

(** The erase command. *)
Lemma dispatch_x toFloat w ns :
  prefs_namespace (prefs w) = Some ns ->
  exists w',
    dispatch toFloat "x" w = Some (tt, w')
    /\ calibrationFactor w' = calibrationFactor w
    /\ prefs w' = prefs w
    /\ ads_present (ads w') = ads_present (ads w)
    /\ nvs w' = delete (ns, PREF_KEY) (nvs w)
    /\ nvs_journal w' = nvs_journal w ++ [NvsRemove ns PREF_KEY]
    /\ tx (Serial w') = tx (Serial w) ++ [TxStr "Calibration erased."; TxLn].
Proof.
  intros Hns. unfold dispatch. cbn [Ascii.eqb Bool.eqb].
  unfold bind, prefs_remove, modify. rewrite Hns.
  eexists; split; [reflexivity|]. simpl. now repeat split.
Qed.

(** Any other byte is ignored. *)
Lemma dispatch_other toFloat c w :
  c <> "c"%char -> c <> "r"%char -> c <> "d"%char -> c <> "x"%char ->
  dispatch toFloat c w = Some (tt, w).
Proof.
  intros Hc Hr Hd Hx. unfold dispatch.
  apply Ascii.eqb_neq in Hc, Hr, Hd, Hx. now rewrite Hc, Hr, Hd, Hx.
Qed.

(** One iteration of [loop] with a command byte pending. *)
Lemma loop_command toFloat w c l :
  rx (Serial w) = RxByte c :: l ->
  loop toFloat w
  = match dispatch toFloat c (set_rx l w) with
    | Some (_, w1) => periodic w1
    | None => None
    end.
Proof.
  intros Hrx. unfold loop.
  rewrite bind_eq. unfold Serial_available, get. rewrite Hrx.
  rewrite bind_eq, buffered_byte.
  rewrite bind_eq. unfold Serial_read. rewrite Hrx, char_of_int_byte.
  reflexivity.
Qed.

(** The periodic block prints nothing when it is not due. *)
Lemma periodic_not_due w t0 w1 now w2 :
  static_t0 w = Some (t0, w1) ->
  millis w1 = Some (now, w2) ->
  uint32_wrap (now - t0) < 2000 ->
  periodic w = Some (tt, w2) /\ tx (Serial w2) = tx (Serial w).
Proof.
  intros Ht Hm Hlt.
  pose proof (static_t0_silent _ _ _ Ht) as [_ Ht1].
  pose proof (millis_silent _ _ _ Hm) as [_ Ht2].
  unfold periodic. rewrite bind_eq, Ht, bind_eq, Hm.
  apply Z.leb_gt in Hlt. rewrite Hlt. split; [reflexivity | congruence].
Qed.

(** An iteration of [loop] with no command byte buffered is the
    periodic block. *)
Lemma loop_idle toFloat w :
  pending (rx (Serial w)) = None -> loop toFloat w = periodic w.
Proof.
  intros H. unfold loop. rewrite bind_eq. unfold Serial_available, get.
  destruct (rx (Serial w)) as [|[c|] l]; try discriminate; reflexivity.
Qed.

(** The periodic block only adds to the console. *)
Lemma periodic_tx_extends w w' :
  periodic w = Some (tt, w') -> exists out, tx (Serial w') = tx (Serial w) ++ out.
Proof.
  intros Hp.
  destruct (static_t0_total w) as (t0 & w1 & Ht).
  destruct (millis_total w1) as (now & w2 & Hm).
  destruct (Z_lt_le_dec (uint32_wrap (now - t0)) 2000) as [Hlt|Hdue].
  - destruct (periodic_not_due w t0 w1 now w2 Ht Hm Hlt) as [Hp' Htx].
    rewrite Hp in Hp'. apply Some_pair_inj in Hp' as [_ ->].
    exists []. now rewrite app_nil_r.
  - destruct (periodic_due w t0 w1 now w2 Ht Hm Hdue) as (i & w3 & w'' & _ & Hp' & Htx).
    rewrite Hp in Hp'. apply Some_pair_inj in Hp' as [_ <-].
    eexists. exact Htx.
Qed.

(** ** Claims about the reports and the stored factor *)

(** C6: when the periodic measurement is due, its report is the noise
    form exactly when the measured current is below
    [IGNORE_THRESHOLD_A] (0.001 A), and the numeric reading otherwise;
    an iteration of [loop] without a command is that periodic block.
    The forced measurement [r] always reports the numeric value of
    [measure_irms], whatever the value and whether or not the periodic
    report is due: every iteration of [loop] that reads [r] prints it. *)
Theorem noise_relabel_iff_below_threshold (toFloat : string -> float) (w : World) :
  (forall t0 w1 now w2,
     static_t0 w = Some (t0, w1) ->
     millis w1 = Some (now, w2) ->
     2000 <= uint32_wrap (now - t0) ->
     exists i w3 w',
       measure_irms w2 = Some (i, w3)
       /\ periodic w = Some (tt, w')
       /\ (float_ltb i IGNORE_THRESHOLD_A = true ->
           tx (Serial w')
           = tx (Serial w)
             ++ [TxStr "I_rms <"; TxFloat IGNORE_THRESHOLD_A 3; TxStr " A (noise)"; TxLn])
       /\ (float_ltb i IGNORE_THRESHOLD_A = false ->
           tx (Serial w')
           = tx (Serial w) ++ [TxStr "I_rms: "; TxFloat i 4; TxStr " A"; TxLn]))
  /\ (pending (rx (Serial w)) = None -> loop toFloat w = periodic w)
  /\ (exists j w4 w'',
        measure_irms w = Some (j, w4)
        /\ dispatch toFloat "r" w = Some (tt, w'')
        /\ tx (Serial w'')
           = tx (Serial w) ++ [TxStr "I_rms (forced) = "; TxFloat j 6; TxStr " A"; TxLn])
  /\ (forall l,
        rx (Serial w) = RxByte "r" :: l ->
        exists j w4 w' out,
          measure_irms (set_rx l w) = Some (j, w4)
          /\ loop toFloat w = Some (tt, w')
          /\ tx (Serial w')
             = tx (Serial w)
               ++ [TxStr "I_rms (forced) = "; TxFloat j 6; TxStr " A"; TxLn]
               ++ out)
  /\ IGNORE_THRESHOLD_A = float_div (float_of_int 1) (float_of_int 1000).
Proof.
  split; [|split; [|split; [|split; [|reflexivity]]]].
  - intros t0 w1 now w2 Ht Hm Hdue.
    destruct (periodic_due w t0 w1 now w2 Ht Hm Hdue) as (i & w3 & w' & Hi & Hp & Htx).
    exists i, w3, w'. split; [exact Hi|]. split; [exact Hp|].
    split; intros Hlt; rewrite Hlt in Htx; exact Htx.
  - apply loop_idle.
  - destruct (dispatch_r toFloat w) as (j & w4 & w'' & Hj & Hd & _ & Htx).
    exists j, w4, w''. auto.
  - intros l Hrx.
    destruct (dispatch_r toFloat (set_rx l w)) as (j & w4 & wr & Hj & Hd & _ & Htx).
    destruct (periodic_total wr) as (w' & Hp & _).
    destruct (periodic_tx_extends wr w' Hp) as (out & Hout).
    exists j, w4, w', out. split; [exact Hj|].
    rewrite (loop_command toFloat w "r" l Hrx), Hd.
    split; [exact Hp|].
    rewrite Hout, Htx, <- app_assoc. reflexivity.
Qed.

Lemma noise_relabel_iff_below_threshold_witness :
  (exists w', periodic (bench_due true) = Some (tt, w')
              /\ tx (Serial w')
                 = [TxStr "I_rms: "; TxFloat (S754_finite false 8562925 (-25)) 4;
                    TxStr " A"; TxLn])
  /\ (exists w', periodic (bench_due false) = Some (tt, w')
                 /\ tx (Serial w')
                    = [TxStr "I_rms <"; TxFloat IGNORE_THRESHOLD_A 3;
                       TxStr " A (noise)"; TxLn])
  /\ (exists w' out,
        loop toFloat_decimal (bench_idle [RxByte "r"]) = Some (tt, w')
        /\ tx (Serial w')
           = [TxStr "I_rms (forced) = "; TxFloat (S754_zero false) 6; TxStr " A"; TxLn]
             ++ out)
  /\ loop toFloat_decimal (bench_due false) = periodic (bench_due false).
Proof.
  split; [|split; [|split]].
  - destruct (noise_relabel_iff_below_threshold toFloat_decimal (bench_due true))
      as (Hper & _).
    destruct (Hper 0 (world_after static_t0 (bench_due true)) 2000
                (world_after millis (world_after static_t0 (bench_due true))))
      as (i & w3 & w' & Hi & Hp & _ & Hnum).
    + reflexivity.
    + reflexivity.
    + vm_compute. discriminate.
    + exists w'. split; [exact Hp|].
      pose proof (f_equal (option_map fst) Hi) as Ei.
      vm_compute in Ei. injection Ei as Ei. subst i.
      apply Hnum. vm_compute. reflexivity.
  - destruct (noise_relabel_iff_below_threshold toFloat_decimal (bench_due false))
      as (Hper & _).
    destruct (Hper 0 (world_after static_t0 (bench_due false)) 2000
                (world_after millis (world_after static_t0 (bench_due false))))
      as (i & w3 & w' & Hi & Hp & Hnoise & _).
    + reflexivity.
    + reflexivity.
    + vm_compute. discriminate.
    + exists w'. split; [exact Hp|].
      pose proof (f_equal (option_map fst) Hi) as Ei.
      vm_compute in Ei. injection Ei as Ei. subst i.
      apply Hnoise. vm_compute. reflexivity.
  - destruct (noise_relabel_iff_below_threshold toFloat_decimal (bench_idle [RxByte "r"]))
      as (_ & _ & _ & Hr & _).
    destruct (Hr []) as (j & w4 & w' & out & Hj & Hl & Htx); [reflexivity|].
    exists w', out. split; [exact Hl|].
    pose proof (f_equal (option_map fst) Hj) as Ej.
    vm_compute in Ej. injection Ej as Ej. subst j.
    exact Htx.
  - destruct (noise_relabel_iff_below_threshold toFloat_decimal (bench_due false))
      as (_ & Hidle & _).
    apply Hidle. reflexivity.
Defined.

(** C7: at start-up [calibrationFactor] becomes the value stored under
    [sct_factor] in [sct_conf] when that key is present, and stays at
    the default 5.0 otherwise.  The erase command [x] removes the key
    and leaves the in-memory factor as it was; a restart after it loads
    the default 5.0. *)
Theorem startup_and_erase (toFloat : string -> float) (w : World) :
  ads_present (ads w) = true ->
  (exists w0,
     setup (restart w) = Some (tt, w0)
     /\ calibrationFactor w0
        = match nvs w !! (PREF_NAMESPACE, PREF_KEY) with
          | Some v => v
          | None => lit_5f
          end)
  /\ (forall l,
        prefs_namespace (prefs w) = Some PREF_NAMESPACE ->
        rx (Serial w) = RxByte "x" :: l ->
        exists w1 w2,
          loop toFloat w = Some (tt, w1)
          /\ calibrationFactor w1 = calibrationFactor w
          /\ nvs w1 = delete (PREF_NAMESPACE, PREF_KEY) (nvs w)
          /\ nvs w1 !! (PREF_NAMESPACE, PREF_KEY) = None
          /\ setup (restart w1) = Some (tt, w2)
          /\ calibrationFactor w2 = lit_5f).
Proof.
  intros Hads. split.
  - destruct (setup_spec (restart w) Hads) as (w0 & Hs & _ & Hcf & _).
    exists w0. split; [exact Hs | exact Hcf].
  - intros l Hns Hrx.
    destruct (dispatch_x toFloat (set_rx l w) PREF_NAMESPACE Hns)
      as (wx & Hx & Hcf & _ & Hp & Hn & _).
    destruct (periodic_total wx) as (w1 & Hper & [Hcf1 _ Hn1 _ Hp1]).
    assert (Hgone : nvs w1 !! (PREF_NAMESPACE, PREF_KEY) = None).
    { rewrite Hn1, Hn. apply lookup_delete_eq. }
    assert (Hads1 : ads_present (ads (restart w1)) = true).
    { simpl. rewrite Hp1, Hp. exact Hads. }
    destruct (setup_spec (restart w1) Hads1) as (w2 & Hs & _ & Hcf2 & _).
    exists w1, w2.
    rewrite (loop_command toFloat w "x" l Hrx), Hx.
    split; [exact Hper|].
    split; [rewrite Hcf1, Hcf; reflexivity|].
    split; [rewrite Hn1, Hn; reflexivity|].
    split; [exact Hgone|].
    split; [exact Hs|].
    rewrite Hcf2. change (nvs (restart w1)) with (nvs w1). now rewrite Hgone.
Qed.

Lemma startup_and_erase_witness :
  let w := bench_ready [RxByte "x"] {[ (PREF_NAMESPACE, PREF_KEY) := float_of_int 3 ]} in
  (exists w0, setup (restart w) = Some (tt, w0)
              /\ calibrationFactor w0 = float_of_int 3)
  /\ (exists w1 w2, loop toFloat_decimal w = Some (tt, w1)
                    /\ calibrationFactor w1 = lit_5f
                    /\ nvs w1 !! (PREF_NAMESPACE, PREF_KEY) = None
                    /\ setup (restart w1) = Some (tt, w2)
                    /\ calibrationFactor w2 = lit_5f).
Proof.
  intros w.
  destruct (startup_and_erase toFloat_decimal w) as [(w0 & Hs & Hcf) Herase].
  - reflexivity.
  - split.
    + exists w0. split; [exact Hs|]. rewrite Hcf. vm_compute. reflexivity.
    + destruct (Herase []) as (w1 & w2 & Hl & Hcf1 & _ & Hgone & Hs2 & Hcf2).
      * reflexivity.
      * reflexivity.
      * exists w1, w2. repeat split; assumption.
Defined.

(** C8, as stated, fails on the forced measurement: after the command
    [r] the console holds the current reading with 6 decimals, and no
    number with 4 decimals. *)
Lemma forced_reading_four_decimals_counterexample :
  exists i w',
    loop toFloat_decimal (bench_ready [RxByte "r"] ∅) = Some (tt, w')
    /\ measure_irms (bench_ready [] ∅) = Some (i, after_sampling (Z.to_nat SAMPLES) (bench_ready [] ∅))
    /\ tx (Serial w') = [TxStr "I_rms (forced) = "; TxFloat i 6; TxStr " A"; TxLn]
    /\ forall v, ~ In (TxFloat v 4) (tx (Serial w')).
Proof.
  exists (S754_finite false 8562925 (-25)),
         (world_after (loop toFloat_decimal) (bench_ready [RxByte "r"] ∅)).
  assert (Htx : tx (Serial (world_after (loop toFloat_decimal) (bench_ready [RxByte "r"] ∅)))
                = [TxStr "I_rms (forced) = "; TxFloat (S754_finite false 8562925 (-25)) 6;
                   TxStr " A"; TxLn]).
  { vm_compute. reflexivity. }
  split; [vm_compute; reflexivity|].
  split; [vm_compute; reflexivity|].
  split; [exact Htx|].
  intros v Hin. rewrite Htx in Hin.
  destruct Hin as [H|[H|[H|[H|[]]]]]; discriminate H.
Qed.

(** C8, amended: every number the sketch prints, and the number of
    decimals it is printed with.  Calibration factors (at start-up, on
    [d], and the new factor of a calibration) are printed with 6
    decimals; the measured voltage of a calibration and the current of
    the periodic report with 4; the noise threshold with 3; and the
    current of the forced measurement [r] with 6. *)
Theorem printed_precisions (toFloat : string -> float) (w : World) :
  (ads_present (ads w) = true ->
   exists w',
     setup w = Some (tt, w')
     /\ tx (Serial w')
        = tx (Serial w)
          ++ [TxLn; TxStr "=== ESP32 SCT-013 RMS Monitor ==="; TxLn;
              TxStr (match nvs w !! (PREF_NAMESPACE, PREF_KEY) with
                     | Some _ => "Calibration factor = "
                     | None => "No saved calibration. Default factor = "
                     end);
              TxFloat (calibrationFactor w') 6; TxLn;
              TxStr "Serial Commands: c = calibrate, r = measure, d = plot factor, x = erase factor";
              TxLn;
              TxStr "----------------------------------------"; TxLn])
  /\ (exists w',
        dispatch toFloat "d" w = Some (tt, w')
        /\ tx (Serial w')
           = tx (Serial w)
             ++ [TxStr "Calibration factor = "; TxFloat (calibrationFactor w) 6; TxLn])
  /\ (exists i w1 w',
        measure_irms w = Some (i, w1)
        /\ dispatch toFloat "r" w = Some (tt, w')
        /\ tx (Serial w')
           = tx (Serial w) ++ [TxStr "I_rms (forced) = "; TxFloat i 6; TxStr " A"; TxLn])
  /\ (forall t0 w1 now w2,
        static_t0 w = Some (t0, w1) ->
        millis w1 = Some (now, w2) ->
        2000 <= uint32_wrap (now - t0) ->
        exists i w3 w',
          measure_irms w2 = Some (i, w3)
          /\ periodic w = Some (tt, w')
          /\ tx (Serial w')
             = tx (Serial w)
               ++ (if float_ltb i IGNORE_THRESHOLD_A
                   then [TxStr "I_rms <"; TxFloat IGNORE_THRESHOLD_A 3;
                         TxStr " A (noise)"; TxLn]
                   else [TxStr "I_rms: "; TxFloat i 4; TxStr " A"; TxLn]))
  /\ (forall V w1,
        calibration_measure w = Some (V, w1) ->
        tx (Serial w1)
        = tx (Serial w)
          ++ [TxStr "=== Interactive calibration ==="; TxLn;
              TxStr "Place known load (resistive). Press ENTER to start measure."; TxLn;
              TxStr "Measure in progress..."; TxLn;
              TxStr "Vrms mesure = "; TxFloat (float_mul V lit_1000f) 4; TxStr " mV"; TxLn;
              TxStr "Put known current value in A :"; TxLn])
  /\ (forall V I c,
        next_byte (rx (Serial w)) = Some c ->
        exists w',
          calibration_commit V I w = Some (tt, w')
          /\ tx (Serial w')
             = tx (Serial w)
               ++ [TxStr "New factor calculated = "; TxFloat (float_div I V) 6; TxLn;
                   TxStr "Save ? (y/n)"; TxLn;
                   TxStr (if Ascii.eqb c "y" || Ascii.eqb c "Y"
                          then "Factor saved in NVS."
                          else "Calibration unsaved.");
                   TxLn;
                   TxStr "=== Calibration finished ==="; TxLn]).
Proof.
  split; [|split; [|split; [|split; [|split]]]].
  - intros Hads.
    destruct (setup_spec w Hads) as (w' & Hs & _ & _ & _ & _ & Htx).
    exists w'. split; [exact Hs | exact Htx].
  - destruct (dispatch_d toFloat w) as (w' & Hd & _ & Htx).
    exists w'. split; [exact Hd | exact Htx].
  - destruct (dispatch_r toFloat w) as (i & w1 & w' & Hi & Hd & _ & Htx).
    exists i, w1, w'. auto.
  - intros t0 w1 now w2 Ht Hm Hdue. exact (periodic_due w t0 w1 now w2 Ht Hm Hdue).
  - intros V w1 Hm. rewrite calibration_measure_spec in Hm.
    destruct (skip_gaps (rx (Serial w))); [discriminate|].
    apply Some_pair_inj in Hm as [<- <-]. reflexivity.
  - intros V I c Hc.
    destruct (calibration_commit_spec V I w c Hc) as (w' & Hrun & _ & _ & Hsave).
    exists w'. split; [exact Hrun|].
    destruct (Ascii.eqb c "y" || Ascii.eqb c "Y"); [apply Hsave | apply Hsave].
Qed.

Lemma printed_precisions_witness :
  (exists w',
     setup (bench [] ∅) = Some (tt, w')
     /\ In (TxFloat lit_5f 6) (tx (Serial w')))
  /\ (exists w',
        periodic (bench_due false) = Some (tt, w')
        /\ tx (Serial w')
           = [TxStr "I_rms <"; TxFloat IGNORE_THRESHOLD_A 3; TxStr " A (noise)"; TxLn])
  /\ (exists w',
        calibration_commit (float_of_int 2) (float_of_int 3) (bench_ready [RxByte "n"] ∅)
        = Some (tt, w')
        /\ In (TxFloat (float_div (float_of_int 3) (float_of_int 2)) 6) (tx (Serial w'))).
Proof.
  split; [|split].
  - destruct (printed_precisions toFloat_decimal (bench [] ∅)) as [Hsetup _].
    destruct Hsetup as (w' & Hs & Htx); [reflexivity|].
    exists w'. split; [exact Hs|]. rewrite Htx.
    destruct (setup_spec (bench [] ∅) eq_refl) as (w'' & Hs' & _ & Hcf & _).
    rewrite Hs in Hs'. injection Hs' as <-. rewrite Hcf.
    vm_compute. tauto.
  - destruct (printed_precisions toFloat_decimal (bench_due false))
      as (_ & _ & _ & Hper & _).
    destruct (Hper 0 (world_after static_t0 (bench_due false)) 2000
                (world_after millis (world_after static_t0 (bench_due false))))
      as (i & w3 & w' & Hi & Hp & Htx).
    + reflexivity.
    + reflexivity.
    + vm_compute. discriminate.
    + exists w'. split; [exact Hp|].
      pose proof (f_equal (option_map fst) Hi) as Ei.
      vm_compute in Ei. injection Ei as Ei. subst i.
      rewrite Htx. vm_compute. reflexivity.
  - destruct (printed_precisions toFloat_decimal (bench_ready [RxByte "n"] ∅))
      as (_ & _ & _ & _ & _ & Hcommit).
    destruct (Hcommit (float_of_int 2) (float_of_int 3) "n"%char) as (w' & Hrun & Htx).
    + reflexivity.
    + exists w'. split; [exact Hrun|]. rewrite Htx.
      simpl. right. left. reflexivity.
Defined.

(** ** The store stays open

    [setup] opens the store on [PREF_NAMESPACE] (see [setup_spec]), and
    no iteration of [loop] touches the handle: the runs above that
    assume an opened store are the runs of the sketch after start-up. *)

Lemma calibration_commit_prefs vrms iknown w w' :
  calibration_commit vrms iknown w = Some (tt, w') -> prefs w' = prefs w.
Proof.
  intros H. destruct (next_byte (rx (Serial w))) as [c|] eqn:Hc.
  - destruct (calibration_commit_spec vrms iknown w c Hc) as (w'' & Hrun & _ & Hp & _).
    rewrite Hrun in H. apply Some_pair_inj in H as [_ <-]. exact Hp.
  - destruct (calibration_commit_blocks vrms iknown w Hc) as [_ Hb].
    rewrite Hb in H. discriminate H.
Qed.

Lemma interactiveCalibration_prefs toFloat w w' :
  interactiveCalibration toFloat w = Some (tt, w') -> prefs w' = prefs w.
Proof.
  rewrite interactiveCalibration_phases.
  destruct (calibration_measure w) as [[V w1]|] eqn:Hm; [|discriminate].
  destruct (read_line w1) as [[s w2]|] eqn:Hr; [|discriminate].
  pose proof (calibration_measure_io_only _ _ _ Hm) as [_ Hp1 _ _ _].
  pose proof (read_line_silent _ _ _ Hr) as [[_ Hp2 _ _ _] _].
  destruct (float_leb (toFloat s) lit_0f).
  - intros H. apply Some_pair_inj in H as [_ <-]. simpl. congruence.
  - intros H. apply calibration_commit_prefs in H. congruence.
Qed.

Lemma dispatch_prefs toFloat c w w' :
  dispatch toFloat c w = Some (tt, w') -> prefs w' = prefs w.
Proof.
  unfold dispatch.
  destruct (Ascii.eqb c "c"); [apply interactiveCalibration_prefs|].
  destruct (Ascii.eqb c "r").
  { rewrite bind_eq, measure_irms_spec.
    set (i := float_mul _ _). clearbody i.
    intros H. apply Some_pair_inj in H as [_ <-]. reflexivity. }
  destruct (Ascii.eqb c "d").
  { intros H. apply Some_pair_inj in H as [_ <-]. reflexivity. }
  destruct (Ascii.eqb c "x").
  { unfold bind, prefs_remove, modify.
    destruct (prefs_namespace (prefs w));
      intros H; apply Some_pair_inj in H as [_ <-]; reflexivity. }
  intros H. apply Some_pair_inj in H as [_ <-]. reflexivity.
Qed.

Lemma loop_prefs toFloat w w' :
  loop toFloat w = Some (tt, w') -> prefs w' = prefs w.
Proof.
  unfold loop. rewrite bind_eq. unfold Serial_available, get.
  rewrite bind_eq.
  destruct (buffered (rx (Serial w)) =? 0).
  - intros H. destruct (periodic_total w) as (w'' & Hp & [_ Hpr _ _ _]).
    unfold ret in H. rewrite Hp in H. apply Some_pair_inj in H as [_ <-]. exact Hpr.
  - rewrite bind_eq.
    destruct (Serial_read w) as [[b w1]|] eqn:Hr; [|discriminate].
    pose proof (Serial_read_silent _ _ _ Hr) as [[_ Hp1 _ _ _] _].
    destruct (dispatch toFloat (char_of_int b) w1) as [[[] w2]|] eqn:Hd; [|discriminate].
    apply dispatch_prefs in Hd.
    intros H. destruct (periodic_total w2) as (w'' & Hp & [_ Hpr _ _ _]).
    rewrite Hp in H. apply Some_pair_inj in H as [_ <-]. congruence.
Qed.

(** After start-up and any number of iterations of [loop] the store is
    open on [PREF_NAMESPACE]. *)
Lemma store_stays_open toFloat (n : nat) : forall w w0 w',
  ads_present (ads w) = true ->
  setup w = Some (tt, w0) ->
  Nat.iter n (fun r => match r with
                       | Some w1 => option_map snd (loop toFloat w1)
                       | None => None
                       end) (Some w0) = Some w' ->
  prefs_namespace (prefs w') = Some PREF_NAMESPACE.
Proof.
  induction n as [|n IH]; intros w w0 w' Hads Hs; simpl.
  - intros [= <-].
    destruct (setup_spec w Hads) as (w1 & Hs1 & Hns & _).
    rewrite Hs in Hs1. apply Some_pair_inj in Hs1 as [_ <-]. exact Hns.
  - destruct (Nat.iter n _ (Some w0)) as [w1|] eqn:Hit; [|discriminate].
    specialize (IH w w0 w1 Hads Hs Hit).
    destruct (loop toFloat w1) as [[[] w2]|] eqn:Hl; [|discriminate].
    intros [= <-]. apply loop_prefs in Hl. congruence.
Qed.

(** * Further properties of the sketch *)

(** ** The line reader *)

Lemma line_text_elapse l : line_text (elapse l) = line_text l.
Proof.
  induction l as [|[c|] l IH]; simpl; auto.
  rewrite IH. reflexivity.
Qed.

Lemma rx_bytes_elapse l : rx_bytes (elapse l) = rx_bytes l.
Proof.
  induction l as [|[c|] l IH]; simpl; auto.
  rewrite IH. reflexivity.
Qed.

Lemma rx_bytes_after_line_elapse l :
  rx_bytes (after_line (elapse l)) = rx_bytes (after_line l).
Proof.
  induction l as [|[c|] l IH]; simpl; auto.
  destruct (Ascii.eqb c LF); [apply rx_bytes_elapse | exact IH].
Qed.

Lemma append_char_assoc s c t :
  String.append (String.append s (String c EmptyString)) t = String.append s (String c t).
Proof.
  induction s as [|a s IH]; [reflexivity|].
  change (String a (String.append (String.append s (String c EmptyString)) t)
          = String a (String.append s (String c t))).
  now rewrite IH.
Qed.

Lemma append_empty_r s : String.append s EmptyString = s.
Proof.
  induction s as [|a s IH]; [reflexivity|].
  change (String a (String.append s EmptyString) = String a s).
  now rewrite IH.
Qed.

Lemma read_line_loop_text fuel : forall s w s' w',
  read_line_loop fuel s w = Some (s', w') ->
  s' = String.append s (line_text (rx (Serial w)))
  /\ rx_bytes (rx (Serial w')) = rx_bytes (after_line (rx (Serial w))).
Proof.
  induction fuel as [|fuel IH]; intros s w s' w'; [discriminate|].
  cbn [read_line_loop]. unfold bind at 1, Serial_available, get.
  destruct (rx (Serial w)) as [|[c|] l] eqn:Hrx.
  - cbn [buffered Z.eqb].
    unfold bind, delay, time_passes, modify. rewrite Hrx. intros H.
    apply IH in H. simpl in H. exact H.
  - rewrite buffered_byte.
    unfold bind at 1, Serial_read. rewrite Hrx, char_of_int_byte.
    cbn [line_text after_line rx_bytes].
    destruct (Ascii.eqb c CR) eqn:Ecr.
    + assert (Elf : Ascii.eqb c LF = false).
      { apply Ascii.eqb_eq in Ecr. subst c. reflexivity. }
      rewrite Elf. intros H. apply IH in H. simpl in H. exact H.
    + destruct (Ascii.eqb c LF) eqn:Elf.
      * intros H. apply Some_pair_inj in H as [<- <-].
        rewrite append_empty_r. split; reflexivity.
      * unfold bind, delay, time_passes, modify. intros H.
        apply IH in H. simpl in H. destruct H as [-> ->].
        rewrite line_text_elapse, rx_bytes_after_line_elapse, append_char_assoc.
        split; reflexivity.
  - cbn [buffered Z.eqb].
    unfold bind, delay, time_passes, modify. rewrite Hrx. intros H.
    apply IH in H. simpl in H. exact H.
Qed.

(** X1: once a line feed arrives, the loop that reads the known
    current returns the bytes typed before that first line feed, in
    order and with every carriage return left out; no byte sent after
    the line feed is lost, and nothing is printed. *)
Theorem read_line_returns_typed_text (w : World) :
  In (RxByte LF) (rx (Serial w)) ->
  exists w',
    read_line w = Some (line_text (rx (Serial w)), w')
    /\ rx_bytes (rx (Serial w')) = rx_bytes (after_line (rx (Serial w)))
    /\ tx (Serial w') = tx (Serial w)
    /\ ~ In CR (list_ascii_of_string (line_text (rx (Serial w))))
    /\ ~ In LF (list_ascii_of_string (line_text (rx (Serial w)))).
Proof.
  intros Hlf.
  destruct (read_line w) as [[s w']|] eqn:Hr.
  - pose proof (read_line_loop_text _ _ _ _ _ Hr) as [Hs Hb].
    pose proof (read_line_silent _ _ _ Hr) as [_ Htx].
    simpl in Hs. subst s. exists w'. split; [reflexivity|].
    split; [exact Hb|]. split; [exact Htx|].
    clear. induction (rx (Serial w)) as [|[c|] l [IH1 IH2]]; simpl; [tauto| |tauto].
    destruct (Ascii.eqb c LF) eqn:Elf; [simpl; tauto|].
    destruct (Ascii.eqb c CR) eqn:Ecr; [tauto|].
    apply Ascii.eqb_neq in Elf, Ecr. simpl.
    split; intros [E|E]; auto.
  - apply read_line_blocks in Hr. contradiction.
Qed.

Lemma read_line_returns_typed_text_witness :
  exists w',
    read_line (bench [RxByte "1"; RxByte CR; Gap; RxByte "2"; RxByte LF; RxByte "y"] ∅)
    = Some ("12"%string, w')
    /\ rx_bytes (rx (Serial w')) = ["y"%char].
Proof.
  destruct (read_line_returns_typed_text
              (bench [RxByte "1"; RxByte CR; Gap; RxByte "2"; RxByte LF; RxByte "y"] ∅))
    as (w' & Hr & Hb & _).
  - simpl. tauto.
  - exists w'. split; [exact Hr | exact Hb].
Defined.

(** ** Where a calibration waits *)

Lemma skip_gaps_nil l : skip_gaps l = [] <-> forall c, ~ In (RxByte c) l.
Proof.
  induction l as [|[c|] l IH]; simpl.
  - split; [intros _ c [] | reflexivity].
  - split; [discriminate|]. intros H. destruct (H c). now left.
  - rewrite IH. split; intros H c.
    + intros [E|E]; [discriminate | now apply (H c)].
    + intros E. apply (H c). now right.
Qed.

Lemma calibration_measure_blocks w :
  calibration_measure w = None <-> forall c, ~ In (RxByte c) (rx (Serial w)).
Proof.
  rewrite calibration_measure_spec, <- skip_gaps_nil.
  destruct (skip_gaps (rx (Serial w))); split; intros H; try reflexivity; discriminate H.
Qed.

Lemma next_byte_none l : next_byte l = None <-> forall c, ~ In (RxByte c) l.
Proof.
  rewrite <- skip_gaps_nil. unfold next_byte.
  assert (H : forall l', skip_gaps l = Gap :: l' -> False).
  { induction l as [|[c|] l IH]; simpl; intros l' E; try discriminate; eauto. }
  destruct (skip_gaps l) as [|[c|] l'] eqn:E; split; intros H'; try reflexivity;
    try discriminate H'. exfalso. eapply H. reflexivity.
Qed.

(** X2: [interactiveCalibration] has no time-out: it fails to return
    exactly when the operator leaves one of its three prompts
    unanswered - no byte to start the measurement, no line feed to end
    the known current, or, for an accepted current, no byte to answer
    the save prompt. *)
Theorem calibration_blocks_only_on_missing_input (toFloat : string -> float) (w : World) :
  interactiveCalibration toFloat w = None
  <-> (forall c, ~ In (RxByte c) (rx (Serial w)))
      \/ (exists V w1,
            calibration_measure w = Some (V, w1)
            /\ ~ In (RxByte LF) (rx (Serial w1)))
      \/ (exists V w1 s w2,
            calibration_measure w = Some (V, w1)
            /\ read_line w1 = Some (s, w2)
            /\ float_leb (toFloat s) lit_0f = false
            /\ forall c, ~ In (RxByte c) (rx (Serial w2))).
Proof.
  rewrite interactiveCalibration_phases. split.
  - destruct (calibration_measure w) as [[V w1]|] eqn:Hm.
    + destruct (read_line w1) as [[s w2]|] eqn:Hr.
      * destruct (float_leb (toFloat s) lit_0f) eqn:Hle; [discriminate|].
        intros Hc. right; right. exists V, w1, s, w2.
        repeat split; auto.
        apply next_byte_none.
        destruct (next_byte (rx (Serial w2))) as [c|] eqn:Hn; [|reflexivity].
        destruct (calibration_commit_spec V (toFloat s) w2 c Hn) as (w' & Hrun & _).
        rewrite Hrun in Hc. discriminate Hc.
      * intros _. right; left. exists V, w1. split; [reflexivity|].
        now apply read_line_blocks.
    + intros _. left. now apply calibration_measure_blocks.
  - intros [H|[(V & w1 & Hm & H)|(V & w1 & s & w2 & Hm & Hr & Hle & H)]].
    + apply calibration_measure_blocks in H. now rewrite H.
    + apply read_line_blocks in H. now rewrite Hm, H.
    + rewrite Hm, Hr, Hle. apply next_byte_none in H.
      now destruct (calibration_commit_blocks V (toFloat s) w2 H).
Qed.

(** ** Degenerate calibrations *)

Lemma double_of_int_finite z :
  0 < z <= INT_MAX -> exists m e, double_of_int z = S754_finite false m e.
Proof.
  intros H. apply double_of_int_pos_finite in H.
  destruct (double_of_int z) as [| | |[] m e]; try discriminate. eauto.
Qed.

Lemma voltage_zero : voltage 0 = S754_zero false.
Proof. reflexivity. Qed.

Lemma sum_of_squares_zero vs :
  Forall (fun v => v = S754_zero false) vs -> sum_of_squares vs = S754_zero false.
Proof.
  unfold sum_of_squares. change lit_0 with (S754_zero false).
  induction vs as [|v vs IH]; intros H; [reflexivity|].
  inversion H as [|? ? -> Hvs]; subst. simpl. apply IH, Hvs.
Qed.

(** With nothing but zero readings the root mean square is +0. *)
Lemma root_mean_square_zero samples raws :
  0 < samples <= INT_MAX ->
  Forall (fun raw => raw = 0) raws ->
  root_mean_square samples raws = S754_zero false.
Proof.
  intros Hs Hz. unfold root_mean_square, mean_square.
  rewrite sum_of_squares_zero.
  - destruct (double_of_int_finite samples Hs) as (m & e & ->). reflexivity.
  - induction Hz as [|raw raws -> _ IH]; simpl; constructor; auto using voltage_zero.
Qed.

Lemma float_div_by_zero I :
  float_ltb lit_0f I = true -> float_div I (S754_zero false) = S754_infinity false.
Proof.
  destruct I as [s|s| |s m e]; simpl; try discriminate;
    destruct s; simpl; try discriminate; reflexivity.
Qed.

(** X3: the division by the measured voltage is not guarded.  When all
    the [SAMPLES] readings of a calibration are zero the measured
    voltage is +0, and for any known current [I > 0] the new factor is
    +infinity: it becomes the live factor, and with a confirmed save
    and the store opened on [ns] it is the stored one too. *)
Theorem zero_voltage_gives_infinite_factor (toFloat : string -> float)
    (w : World) (V : float) (w1 : World) (s : string) (w2 : World) (c : ascii) :
  calibration_measure w = Some (V, w1) ->
  Forall (fun raw => raw = 0) (raw_readings w (Z.to_nat SAMPLES)) ->
  read_line w1 = Some (s, w2) ->
  float_ltb lit_0f (toFloat s) = true ->
  next_byte (rx (Serial w2)) = Some c ->
  exists w',
    interactiveCalibration toFloat w = Some (tt, w')
    /\ V = S754_zero false
    /\ calibrationFactor w' = S754_infinity false
    /\ forall ns,
         prefs_namespace (prefs w) = Some ns ->
         c = "y"%char \/ c = "Y"%char ->
         nvs w' !! (ns, PREF_KEY) = Some (S754_infinity false).
Proof.
  intros Hm Hz Hr Hpos Hc.
  assert (HV : V = S754_zero false).
  { pose proof Hm as Hm'. rewrite calibration_measure_spec in Hm'.
    destruct (skip_gaps (rx (Serial w))); [discriminate|].
    apply Some_pair_inj in Hm' as [<- _].
    apply root_mean_square_zero; [|exact Hz]. unfold SAMPLES, INT_MAX. lia. }
  pose proof (float_div_by_zero _ Hpos) as Hdiv.
  pose proof (IEEE_facts.zero_lt_not_le _ Hpos) as Hle.
  destruct (calibration_accepts toFloat w V w1 s w2 c Hm Hr Hle Hc)
    as (w' & Hrun & Hcf & _ & Hsave).
  subst V. rewrite Hdiv in Hcf, Hsave.
  exists w'. split; [exact Hrun|]. split; [reflexivity|]. split; [exact Hcf|].
  intros ns Hns Hyes. apply confirm_byte in Hyes.
  rewrite Hyes, Hns in Hsave. destruct Hsave as [Hn _].
  rewrite Hn. apply lookup_insert_eq.
Qed.

Lemma float_div_nan V : float_div S754_nan V = S754_nan.
Proof. reflexivity. Qed.

(** X4: the guard on the known current is [iknown <= 0].  A known
    current that parses to NaN is not [<= 0], so the run goes on to the
    save prompt and the live factor becomes NaN. *)
Theorem nan_current_passes_guard (toFloat : string -> float)
    (w : World) (V : float) (w1 : World) (s : string) (w2 : World) (c : ascii) :
  calibration_measure w = Some (V, w1) ->
  read_line w1 = Some (s, w2) ->
  toFloat s = S754_nan ->
  next_byte (rx (Serial w2)) = Some c ->
  exists w',
    interactiveCalibration toFloat w = Some (tt, w')
    /\ calibrationFactor w' = S754_nan
    /\ In (TxStr "New factor calculated = ") (tx (Serial w'))
    /\ forall ns,
         prefs_namespace (prefs w) = Some ns ->
         c = "y"%char \/ c = "Y"%char ->
         nvs w' !! (ns, PREF_KEY) = Some S754_nan.
Proof.
  intros Hm Hr Hnan Hc.
  assert (Hle : float_leb (toFloat s) lit_0f = false) by (rewrite Hnan; reflexivity).
  destruct (calibration_accepts toFloat w V w1 s w2 c Hm Hr Hle Hc)
    as (w' & Hrun & Hcf & _ & Hsave).
  rewrite Hnan, float_div_nan in Hcf, Hsave.
  exists w'. split; [exact Hrun|]. split; [exact Hcf|]. split.
  - destruct (calibration_commit_spec V (toFloat s) w2 c Hc) as (w'' & Hrun' & _ & _ & Htx).
    rewrite interactiveCalibration_phases, Hm, Hr, Hle, Hrun' in Hrun.
    apply Some_pair_inj in Hrun as [_ <-].
    destruct (Ascii.eqb c "y" || Ascii.eqb c "Y").
    + destruct Htx as [_ ->]. apply in_or_app. right. simpl. tauto.
    + destruct Htx as (_ & _ & ->). apply in_or_app. right. simpl. tauto.
  - intros ns Hns Hyes. apply confirm_byte in Hyes.
    rewrite Hyes, Hns in Hsave. destruct Hsave as [Hn _].
    rewrite Hn. apply lookup_insert_eq.
Qed.

Lemma float_mul_nan_r x : float_mul x S754_nan = S754_nan.
Proof. destruct x; reflexivity. Qed.

(** X5: a NaN factor is not caught by the noise threshold.  With
    [calibrationFactor] NaN every measured current is NaN, NaN is not
    below the threshold, and a periodic report that is due prints it as
    a number. *)
Theorem nan_factor_is_reported_as_number
    (w : World) (t0 : Z) (w1 : World) (now : Z) (w2 : World) :
  calibrationFactor w = S754_nan ->
  static_t0 w = Some (t0, w1) ->
  millis w1 = Some (now, w2) ->
  2000 <= uint32_wrap (now - t0) ->
  exists w3 w',
    measure_irms w2 = Some (S754_nan, w3)
    /\ periodic w = Some (tt, w')
    /\ tx (Serial w')
       = tx (Serial w) ++ [TxStr "I_rms: "; TxFloat S754_nan 4; TxStr " A"; TxLn].
Proof.
  intros Hcf Ht Hm Hdue.
  pose proof (static_t0_silent _ _ _ Ht) as [[Hc1 _ _ _ _] _].
  pose proof (millis_silent _ _ _ Hm) as [[Hc2 _ _ _ _] _].
  destruct (periodic_due w t0 w1 now w2 Ht Hm Hdue) as (i & w3 & w' & Hi & Hp & Htx).
  assert (Ei : i = S754_nan).
  { rewrite measure_irms_spec in Hi. apply Some_pair_inj in Hi as [<- _].
    rewrite Hc2, Hc1, Hcf. apply float_mul_nan_r. }
  subst i. exists w3, w'. split; [exact Hi|]. split; [exact Hp|]. exact Htx.
Qed.

(** ** The sampler outside its intended range *)

Lemma binary_round_small s p :
  Zpos p < 2 ^ 53 -> exists m e, binary_round 53 1024 s p 0 = S754_finite s m e.
Proof.
  intros H2. unfold binary_round.
  pose proof (digits2_pos_bound p 53 ltac:(lia) H2) as Hd.
  assert (Hf : fexp 53 1024 (Zpos (digits2_pos p) + 0) = Zpos (digits2_pos p) - 53).
  { unfold fexp, emin. lia. }
  rewrite Hf. unfold shl_align.
  destruct (Zpos (digits2_pos p) - 53 - 0) as [|d|d] eqn:E; try lia.
  - eexists _, _. apply binary_round_aux_canonical; [|reflexivity].
    unfold canonical_mantissa. rewrite Hf. apply Z.eqb_eq. lia.
  - eexists _, _. apply binary_round_aux_canonical.
    + unfold canonical_mantissa. rewrite digits2_pos_iter_xO.
      apply Z.eqb_eq. unfold fexp, emin. lia.
    + apply Z.leb_le. lia.
Qed.

Lemma double_of_int_neg_finite z :
  INT_MIN <= z < 0 -> exists m e, double_of_int z = S754_finite true m e.
Proof.
  intros [H0 H1]. destruct z as [|p|p]; try lia.
  apply binary_round_small.
  unfold INT_MIN in H0. change (2 ^ 53) with 9007199254740992. lia.
Qed.

Lemma after_sampling_0 w : after_sampling 0 w = w.
Proof.
  destruct w as [cf t0 [r t] [p g c k] pr cl st j].
  unfold after_sampling, set_Serial, set_ads; simpl. now rewrite Nat.add_0_r.
Qed.

(** X6: [measure_vrms] does not check its argument.  Called with no
    samples to take it reads nothing, waits for nothing and still
    divides: for [samples = 0] the result is NaN (0/0), and for a
    negative count it is -0 (the square root of -0). *)
Theorem measure_vrms_without_samples (samples : Z) (w : World) :
  INT_MIN <= samples <= 0 ->
  measure_vrms samples w
  = Some (if samples =? 0 then S754_nan else S754_zero true, w).
Proof.
  intros [Hlo Hhi]. rewrite measure_vrms_spec.
  replace (Z.to_nat samples) with 0%nat by lia.
  rewrite after_sampling_0. f_equal. f_equal.
  destruct (samples =? 0) eqn:E.
  - apply Z.eqb_eq in E. subst samples. reflexivity.
  - apply Z.eqb_neq in E.
    destruct (double_of_int_neg_finite samples ltac:(lia)) as (m & e & Hd).
    unfold root_mean_square, mean_square. cbn [map sum_of_squares fold_left].
    rewrite Hd. reflexivity.
Qed.

Lemma measure_vrms_without_samples_witness :
  measure_vrms 0 (bench [] ∅) = Some (S754_nan, bench [] ∅)
  /\ measure_vrms (-3) (bench [] ∅) = Some (S754_zero true, bench [] ∅).
Proof.
  split.
  - apply (measure_vrms_without_samples 0 (bench [] ∅)). unfold INT_MIN. lia.
  - apply (measure_vrms_without_samples (-3) (bench [] ∅)). unfold INT_MIN. lia.
Defined.

(** ** Sign of the measured current *)

Lemma float_mul_nonneg x y :
  IEEE.nonneg x = true -> IEEE.pos_finite y = true ->
  IEEE.nonneg (float_mul x y) = true.
Proof.
  destruct y as [sy|sy| |sy my ey]; simpl; try discriminate.
  destruct sy; try discriminate. intros Hx _.
  destruct x as [sx|sx| |sx mx ex]; simpl in *; try discriminate;
    destruct sx; simpl in *; try discriminate; try reflexivity.
  apply IEEE_facts.signed_false_nonneg.
  apply (IEEE_facts.binary_round_aux_signed 24 128 false). lia.
Qed.

(** X7: with a positive finite calibration factor, as the default 5.0
    is, the current [measure_irms] returns is never negative and never
    NaN. *)
Theorem measure_irms_nonneg (w : World) :
  IEEE.pos_finite (calibrationFactor w) = true ->
  exists i w',
    measure_irms w = Some (i, w')
    /\ float_leb lit_0f i = true
    /\ IEEE.pos_finite calibrationFactor_init = true.
Proof.
  intros Hcf. eexists _, _. split; [apply measure_irms_spec|]. split; [|reflexivity].
  apply IEEE_facts.nonneg_zero_le, float_mul_nonneg; [|exact Hcf].
  apply root_mean_square_nonneg. unfold SAMPLES, INT_MAX. lia.
Qed.

Lemma measure_irms_nonneg_witness :
  exists i w', measure_irms (bench [] ∅) = Some (i, w') /\ float_leb lit_0f i = true.
Proof.
  destruct (measure_irms_nonneg (bench [] ∅)) as (i & w' & Hi & Hle & _).
  - reflexivity.
  - exists i, w'. split; assumption.
Defined.

(** ** One iteration of [loop] *)

(** Every command but [c] returns, and leaves the factor alone. *)
Lemma dispatch_no_calibration toFloat c w :
  c <> "c"%char ->
  exists w',
    dispatch toFloat c w = Some (tt, w')
    /\ calibrationFactor w' = calibrationFactor w
    /\ prefs w' = prefs w
    /\ ads_present (ads w') = ads_present (ads w)
    /\ (c <> "x"%char -> nvs w' = nvs w /\ nvs_journal w' = nvs_journal w)
    /\ (forall ns, prefs_namespace (prefs w) = Some ns ->
          (forall k, k <> (ns, PREF_KEY) -> nvs w' !! k = nvs w !! k)
          /\ (nvs_journal w' = nvs_journal w
              \/ nvs_journal w' = nvs_journal w ++ [NvsRemove ns PREF_KEY])).
Proof.
  intros Hc.
  destruct (Ascii.eqb c "r") eqn:Er; [|destruct (Ascii.eqb c "d") eqn:Ed;
    [|destruct (Ascii.eqb c "x") eqn:Ex]].
  - apply Ascii.eqb_eq in Er. subst c.
    destruct (dispatch_r toFloat w) as (i & w1 & w' & _ & Hd & [Hcf Hp Hn Hj Ha] & _).
    exists w'. rewrite Hn, Hj. repeat split; auto.
  - apply Ascii.eqb_eq in Ed. subst c.
    destruct (dispatch_d toFloat w) as (w' & Hd & [Hcf Hp Hn Hj Ha] & _).
    exists w'. rewrite Hn, Hj. repeat split; auto.
  - apply Ascii.eqb_eq in Ex. subst c.
    unfold dispatch. cbn [Ascii.eqb Bool.eqb].
    unfold bind, prefs_remove, modify.
    destruct (prefs_namespace (prefs w)) as [ns|] eqn:Hns;
      (eexists; split; [reflexivity|]); simpl;
      (split; [reflexivity|]); (split; [reflexivity|]); (split; [reflexivity|]);
      (split; [intros H; now destruct H|]).
    + intros ns' [= <-]. split; [|right; reflexivity].
      intros k Hk. apply lookup_delete_ne. congruence.
    + intros ns' [=].
  - apply Ascii.eqb_neq in Er, Ed, Ex.
    exists w. rewrite dispatch_other by assumption.
    repeat split; auto.
Qed.

(** X8: only the calibration command can stall [loop] or change the
    factor.  An iteration that does not read [c] always returns with
    [calibrationFactor] as it was, and unless it reads [x] the store
    and the journal of its writes are as they were too. *)
Theorem loop_returns_unless_calibrating (toFloat : string -> float) (w : World) :
  pending (rx (Serial w)) <> Some "c"%char ->
  exists w',
    loop toFloat w = Some (tt, w')
    /\ calibrationFactor w' = calibrationFactor w
    /\ (pending (rx (Serial w)) <> Some "x"%char ->
        nvs w' = nvs w /\ nvs_journal w' = nvs_journal w).
Proof.
  intros Hc.
  destruct (rx (Serial w)) as [|[c|] l] eqn:Hrx.
  - rewrite loop_idle by (rewrite Hrx; reflexivity).
    destruct (periodic_total w) as (w' & Hp & [Hcf _ Hn Hj _]).
    exists w'. auto.
  - assert (Hc' : c <> "c"%char) by (intros ->; now apply Hc).
    destruct (dispatch_no_calibration toFloat c (set_rx l w) Hc')
      as (w1 & Hd & Hcf & _ & _ & Hstore & _).
    destruct (periodic_total w1) as (w' & Hp & [Hcf1 _ Hn1 Hj1 _]).
    exists w'. rewrite (loop_command toFloat w c l Hrx), Hd.
    split; [exact Hp|]. split; [rewrite Hcf1, Hcf; reflexivity|].
    intros Hx. destruct Hstore as [Hn Hj]; [intros ->; now apply Hx|].
    rewrite Hn1, Hj1, Hn, Hj. split; reflexivity.
  - rewrite loop_idle by (rewrite Hrx; reflexivity).
    destruct (periodic_total w) as (w' & Hp & [Hcf _ Hn Hj _]).
    exists w'. auto.
Qed.

Lemma loop_returns_unless_calibrating_witness :
  exists w',
    loop toFloat_decimal (bench_ready [RxByte "d"; RxByte "c"] ∅) = Some (tt, w')
    /\ calibrationFactor w' = lit_5f
    /\ nvs w' = ∅.
Proof.
  destruct (loop_returns_unless_calibrating toFloat_decimal
              (bench_ready [RxByte "d"; RxByte "c"] ∅))
    as (w' & Hl & Hcf & Hst).
  - simpl. discriminate.
  - exists w'. split; [exact Hl|]. split; [exact Hcf|].
    destruct Hst as [Hn _]; [simpl; discriminate | exact Hn].
Defined.

(** X9: a byte that is none of [c], [r], [d], [x] is read and dropped:
    the iteration does what an iteration with the rest of the buffer
    and no command would do at its end, and nothing else. *)
Theorem loop_ignores_other_bytes (toFloat : string -> float)
    (w : World) (c : ascii) (l : list line_event) :
  rx (Serial w) = RxByte c :: l ->
  c <> "c"%char -> c <> "r"%char -> c <> "d"%char -> c <> "x"%char ->
  loop toFloat w = periodic (set_rx l w)
  /\ exists w',
       loop toFloat w = Some (tt, w')
       /\ io_only w w'.
Proof.
  intros Hrx Hc Hr Hd Hx.
  rewrite (loop_command toFloat w c l Hrx), dispatch_other by assumption.
  split; [reflexivity|].
  destruct (periodic_total (set_rx l w)) as (w' & Hp & Hio).
  exists w'. split; [exact Hp|].
  eapply io_only_trans; [apply io_only_set_Serial | exact Hio].
Qed.

Lemma loop_ignores_other_bytes_witness :
  loop toFloat_decimal (bench_ready [RxByte "C"; RxByte "d"] ∅)
  = periodic (bench_ready [RxByte "d"] ∅).
Proof.
  destruct (loop_ignores_other_bytes toFloat_decimal
              (bench_ready [RxByte "C"; RxByte "d"] ∅) "C"%char [RxByte "d"])
    as [H _].
  - reflexivity.
  - discriminate.
  - discriminate.
  - discriminate.
  - discriminate.
  - exact H.
Defined.

(** ** The periodic timer *)

(** The periodic block with its timer armed at [t0]. *)
Lemma periodic_armed w t0 :
  loop_t0 w = Some t0 ->
  exists w',
    periodic w = Some (tt, w')
    /\ (uint32_wrap (clock_reading w 0 - t0) < 2000 ->
        tx (Serial w') = tx (Serial w)
        /\ loop_t0 w' = Some t0
        /\ ads_next (ads w') = ads_next (ads w)
        /\ clock_next (clock w') = S (clock_next (clock w)))
    /\ (2000 <= uint32_wrap (clock_reading w 0 - t0) ->
        (exists i,
           measure_irms w = Some (i, after_sampling (Z.to_nat SAMPLES) w)
           /\ tx (Serial w')
              = tx (Serial w)
                ++ (if float_ltb i IGNORE_THRESHOLD_A
                    then [TxStr "I_rms <"; TxFloat IGNORE_THRESHOLD_A 3;
                          TxStr " A (noise)"; TxLn]
                    else [TxStr "I_rms: "; TxFloat i 4; TxStr " A"; TxLn]))
        /\ loop_t0 w' = Some (clock_reading w 1)
        /\ ads_next (ads w') = (ads_next (ads w) + Z.to_nat SAMPLES)%nat
        /\ clock_next (clock w') = S (S (clock_next (clock w)))).
Proof.
  intros Ht.
  assert (Hs : static_t0 w = Some (t0, w)).
  { unfold static_t0, bind, get. now rewrite Ht. }
  unfold periodic. rewrite bind_eq, Hs, bind_eq.
  unfold clock_reading. rewrite Nat.add_0_r, Nat.add_1_r.
  unfold millis at 1. cbv zeta.
  destruct (2000 <=? uint32_wrap
              (uint32_wrap (clock_readings (clock w) (clock_next (clock w))) - t0)) eqn:E.
  - apply Z.leb_le in E.
    rewrite bind_eq, measure_irms_spec.
    set (i := float_mul _ _).
    assert (Hi : measure_irms w = Some (i, after_sampling (Z.to_nat SAMPLES) w)).
    { subst i. rewrite measure_irms_spec. reflexivity. }
    clearbody i. revert Hi. generalize (Z.to_nat SAMPLES). intros N Hi.
    destruct (float_ltb i IGNORE_THRESHOLD_A) eqn:El;
      (eexists; split; [reflexivity|]; split; [intros H; lia|]; intros _);
      (split; [exists i; split; [exact Hi|]; rewrite El; simpl;
               rewrite <- !app_assoc; reflexivity|]);
      simpl; repeat split; reflexivity.
  - apply Z.leb_gt in E.
    eexists; split; [reflexivity|]. split; [intros _|intros H; lia].
    simpl. rewrite Ht. repeat split; reflexivity.
Qed.

(** The periodic block on the first iteration, when its timer is not
    armed yet. *)
Lemma periodic_first w :
  loop_t0 w = None ->
  exists w',
    periodic w = Some (tt, w')
    /\ (uint32_wrap (clock_reading w 1 - clock_reading w 0) < 2000 ->
        tx (Serial w') = tx (Serial w)
        /\ loop_t0 w' = Some (clock_reading w 0)
        /\ ads_next (ads w') = ads_next (ads w)
        /\ clock_next (clock w') = S (S (clock_next (clock w))))
    /\ (2000 <= uint32_wrap (clock_reading w 1 - clock_reading w 0) ->
        loop_t0 w' = Some (clock_reading w 2)
        /\ ads_next (ads w') = (ads_next (ads w) + Z.to_nat SAMPLES)%nat).
Proof.
  intros Ht.
  unfold periodic. rewrite bind_eq.
  unfold static_t0 at 1. rewrite bind_eq. unfold get at 1. rewrite Ht.
  rewrite bind_eq. unfold millis at 1. cbv zeta.
  rewrite bind_eq. unfold modify at 1. unfold ret at 1.
  rewrite bind_eq. unfold millis at 1. cbv zeta.
  unfold clock_reading. rewrite Nat.add_0_r, Nat.add_1_r.
  replace (clock_next (clock w) + 2)%nat with (S (S (clock_next (clock w)))) by lia.
  cbn [clock set_clock set_loop_t0 clock_readings clock_next].
  match goal with |- context [2000 <=? ?x] => destruct (2000 <=? x) eqn:E end.
  - apply Z.leb_le in E.
    rewrite bind_eq, measure_irms_spec.
    set (i := float_mul _ _). clearbody i.
    generalize (Z.to_nat SAMPLES). intros N.
    destruct (float_ltb i IGNORE_THRESHOLD_A);
      (eexists; split; [reflexivity|]; split; [intros H; lia|]; intros _);
      simpl; split; reflexivity.
  - apply Z.leb_gt in E.
    eexists; split; [reflexivity|]. split; [intros _|intros H; lia].
    simpl. repeat split; reflexivity.
Qed.

Lemma uint32_wrap_elapsed t0 d :
  0 <= t0 < 2 ^ 32 -> 0 <= d < 2 ^ 32 ->
  uint32_wrap (uint32_wrap (t0 + d) - t0) = d.
Proof.
  intros Ht Hd. unfold uint32_wrap. change 4294967296 with (2 ^ 32).
  rewrite Zminus_mod_idemp_l.
  replace (t0 + d - t0) with d by lia. apply Z.mod_small. lia.
Qed.

(** X10: the elapsed-time test is an unsigned subtraction, so it
    measures the time since the timer was armed modulo 2^32 and is not
    fooled when [millis] rolls over.  With the timer armed at [t0] and
    [d] milliseconds gone ([d < 2^32]), the periodic block measures and
    re-arms the timer exactly when [d >= 2000], and otherwise touches
    neither console, converter nor timer. *)
Theorem periodic_survives_rollover (w : World) (t0 d : Z) :
  loop_t0 w = Some t0 ->
  0 <= t0 < 2 ^ 32 ->
  0 <= d < 2 ^ 32 ->
  clock_reading w 0 = uint32_wrap (t0 + d) ->
  exists w',
    periodic w = Some (tt, w')
    /\ (d < 2000 ->
        tx (Serial w') = tx (Serial w)
        /\ loop_t0 w' = Some t0
        /\ ads_next (ads w') = ads_next (ads w))
    /\ (2000 <= d ->
        tx (Serial w') <> tx (Serial w)
        /\ loop_t0 w' = Some (clock_reading w 1)
        /\ ads_next (ads w') = (ads_next (ads w) + Z.to_nat SAMPLES)%nat).
Proof.
  intros Ht Ht0 Hd Hnow.
  destruct (periodic_armed w t0 Ht) as (w' & Hp & Hidle & Hdue).
  rewrite Hnow, uint32_wrap_elapsed in Hidle, Hdue by assumption.
  exists w'. split; [exact Hp|]. split.
  - intros H. destruct (Hidle H) as (H1 & H2 & H3 & _). auto.
  - intros H. destruct (Hdue H) as ((i & _ & Htx) & H2 & H3 & _).
    split; [|split; assumption].
    rewrite Htx. intros E. apply (f_equal (@length _)) in E.
    rewrite length_app in E.
    destruct (float_ltb i IGNORE_THRESHOLD_A); simpl in E; lia.
Qed.

Lemma periodic_survives_rollover_witness :
  exists w',
    periodic (set_clock {| clock_readings := fun _ => 1500; clock_next := 0 |}
                (set_loop_t0 (Some 4294966796) (bench_due false)))
    = Some (tt, w')
    /\ tx (Serial w') <> []
    /\ loop_t0 w' = Some 1500.
Proof.
  destruct (periodic_survives_rollover
              (set_clock {| clock_readings := fun _ => 1500; clock_next := 0 |}
                 (set_loop_t0 (Some 4294966796) (bench_due false)))
              4294966796 2000)
    as (w' & Hp & _ & Hdue).
  - reflexivity.
  - lia.
  - lia.
  - reflexivity.
  - exists w'. split; [exact Hp|].
    destruct Hdue as (Htx & Ht & _); [lia|]. split; [exact Htx | exact Ht].
Defined.

(** X11: [t0] is a function-static initialised by the first pass:
    an idle first iteration arms the timer with the first clock reading
    and, unless two seconds pass between two consecutive readings,
    measures and prints nothing. *)
Theorem first_iteration_arms_timer (toFloat : string -> float) (w : World) :
  loop_t0 w = None ->
  pending (rx (Serial w)) = None ->
  uint32_wrap (clock_reading w 1 - clock_reading w 0) < 2000 ->
  exists w',
    loop toFloat w = Some (tt, w')
    /\ loop_t0 w' = Some (clock_reading w 0)
    /\ tx (Serial w') = tx (Serial w)
    /\ ads_next (ads w') = ads_next (ads w).
Proof.
  intros Ht Hp Hlt. rewrite loop_idle by assumption.
  destruct (periodic_first w Ht) as (w' & Hper & Hidle & _).
  destruct (Hidle Hlt) as (H1 & H2 & H3 & _).
  exists w'. auto.
Qed.

Lemma first_iteration_arms_timer_witness :
  exists w',
    loop toFloat_decimal (bench [] ∅) = Some (tt, w')
    /\ loop_t0 w' = Some 0
    /\ tx (Serial w') = [].
Proof.
  destruct (first_iteration_arms_timer toFloat_decimal (bench [] ∅))
    as (w' & Hl & Ht & Htx & _).
  - reflexivity.
  - reflexivity.
  - vm_compute. reflexivity.
  - exists w'. split; [exact Hl|]. split; [exact Ht | exact Htx].
Defined.

(** The forced measurement, with the machine it leaves. *)
Lemma dispatch_r_machine toFloat w :
  exists i w',
    measure_irms w = Some (i, after_sampling (Z.to_nat SAMPLES) w)
    /\ dispatch toFloat "r" w = Some (tt, w')
    /\ tx (Serial w')
       = tx (Serial w) ++ [TxStr "I_rms (forced) = "; TxFloat i 6; TxStr " A"; TxLn]
    /\ loop_t0 w' = loop_t0 w
    /\ clock w' = clock w
    /\ calibrationFactor w' = calibrationFactor w
    /\ ads_conversions (ads w') = ads_conversions (ads w)
    /\ ads_next (ads w') = (ads_next (ads w) + Z.to_nat SAMPLES)%nat.
Proof.
  unfold dispatch. cbn [Ascii.eqb Bool.eqb].
  rewrite bind_eq, measure_irms_spec.
  set (i := float_mul _ _). clearbody i.
  generalize (Z.to_nat SAMPLES). intros N.
  exists i. eexists. split; [reflexivity|]. split; [reflexivity|].
  simpl. rewrite <- !app_assoc. repeat split; reflexivity.
Qed.

(** X12: a forced measurement does not re-arm the periodic timer.  An
    iteration that reads [r] while the periodic report is due measures
    twice - [2 * SAMPLES] conversions - and prints both the forced and
    the periodic report; when the report is not due the timer is left
    where it was. *)
Theorem forced_measurement_keeps_timer (toFloat : string -> float)
    (w : World) (l : list line_event) (t0 : Z) :
  rx (Serial w) = RxByte "r" :: l ->
  loop_t0 w = Some t0 ->
  exists i w',
    loop toFloat w = Some (tt, w')
    /\ (2000 <= uint32_wrap (clock_reading w 0 - t0) ->
        (exists j,
           tx (Serial w')
           = tx (Serial w)
             ++ [TxStr "I_rms (forced) = "; TxFloat i 6; TxStr " A"; TxLn]
             ++ (if float_ltb j IGNORE_THRESHOLD_A
                 then [TxStr "I_rms <"; TxFloat IGNORE_THRESHOLD_A 3;
                       TxStr " A (noise)"; TxLn]
                 else [TxStr "I_rms: "; TxFloat j 4; TxStr " A"; TxLn]))
        /\ ads_next (ads w')
           = (ads_next (ads w) + Z.to_nat SAMPLES + Z.to_nat SAMPLES)%nat)
    /\ (uint32_wrap (clock_reading w 0 - t0) < 2000 ->
        tx (Serial w')
        = tx (Serial w) ++ [TxStr "I_rms (forced) = "; TxFloat i 6; TxStr " A"; TxLn]
        /\ loop_t0 w' = Some t0
        /\ ads_next (ads w') = (ads_next (ads w) + Z.to_nat SAMPLES)%nat).
Proof.
  intros Hrx Ht.
  destruct (dispatch_r_machine toFloat (set_rx l w))
    as (i & wr & _ & Hd & Htx & Ht0 & Hck & _ & _ & Hnext).
  assert (Htr : loop_t0 wr = Some t0) by (rewrite Ht0; exact Ht).
  destruct (periodic_armed wr t0 Htr) as (w' & Hp & Hidle & Hdue).
  assert (Hcr : clock_reading wr 0 = clock_reading w 0).
  { unfold clock_reading. rewrite Hck. reflexivity. }
  rewrite Hcr in Hidle, Hdue.
  exists i, w'. rewrite (loop_command toFloat w "r" l Hrx), Hd.
  split; [exact Hp|]. split.
  - intros H. destruct (Hdue H) as ((j & _ & Hj) & _ & Hn & _).
    split.
    + exists j. rewrite Hj, Htx, <- app_assoc. reflexivity.
    + rewrite Hn, Hnext. reflexivity.
  - intros H. destruct (Hidle H) as (H1 & H2 & H3 & _).
    rewrite H1, H3, Htx, Hnext. repeat split; auto.
Qed.

Lemma forced_measurement_keeps_timer_witness :
  exists w',
    loop toFloat_decimal (set_rx [RxByte "r"] (bench_due true)) = Some (tt, w')
    /\ ads_next (ads w') = 3200%nat
    /\ length (tx (Serial w')) = 8%nat.
Proof.
  destruct (forced_measurement_keeps_timer toFloat_decimal
              (set_rx [RxByte "r"] (bench_due true)) [] 0)
    as (i & w' & Hl & Hdue & _).
  - reflexivity.
  - reflexivity.
  - destruct Hdue as ((j & Htx) & Hn); [vm_compute; discriminate|].
    exists w'. split; [exact Hl|]. split; [exact Hn|].
    rewrite Htx. destruct (float_ltb j IGNORE_THRESHOLD_A); reflexivity.
Defined.

Lemma zero_voltage_gives_infinite_factor_witness :
  exists w',
    interactiveCalibration toFloat_decimal (bench_idle (operator "2.5" "y")) = Some (tt, w')
    /\ calibrationFactor w' = S754_infinity false
    /\ nvs w' !! (PREF_NAMESPACE, PREF_KEY) = Some (S754_infinity false).
Proof.
  set (w := bench_idle (operator "2.5" "y")).
  destruct (zero_voltage_gives_infinite_factor toFloat_decimal w
              (result_of calibration_measure w lit_0f)
              (world_after calibration_measure w)
              (result_of read_line (world_after calibration_measure w) EmptyString)
              (world_after read_line (world_after calibration_measure w))
              "y"%char)
    as (w' & Hrun & _ & Hcf & Hst).
  - vm_compute. reflexivity.
  - unfold raw_readings. apply Forall_forall. intros raw Hin.
    apply list_elem_of_In, in_map_iff in Hin as (k & <- & _). reflexivity.
  - vm_compute. reflexivity.
  - vm_compute. reflexivity.
  - vm_compute. reflexivity.
  - exists w'. split; [exact Hrun|]. split; [exact Hcf|].
    apply (Hst PREF_NAMESPACE); [reflexivity | left; reflexivity].
Defined.

Lemma nan_current_passes_guard_witness :
  exists w',
    interactiveCalibration toFloat_with_nan (bench_ready (operator "nan" "n") ∅) = Some (tt, w')
    /\ calibrationFactor w' = S754_nan.
Proof.
  set (w := bench_ready (operator "nan" "n") ∅).
  destruct (nan_current_passes_guard toFloat_with_nan w
              (result_of calibration_measure w lit_0f)
              (world_after calibration_measure w)
              (result_of read_line (world_after calibration_measure w) EmptyString)
              (world_after read_line (world_after calibration_measure w))
              "n"%char)
    as (w' & Hrun & Hcf & _).
  - vm_compute. reflexivity.
  - vm_compute. reflexivity.
  - vm_compute. reflexivity.
  - vm_compute. reflexivity.
  - exists w'. split; [exact Hrun | exact Hcf].
Defined.

Lemma nan_factor_is_reported_as_number_witness :
  exists w',
    periodic (set_calibrationFactor S754_nan (bench_due true)) = Some (tt, w')
    /\ tx (Serial w') = [TxStr "I_rms: "; TxFloat S754_nan 4; TxStr " A"; TxLn].
Proof.
  set (w := set_calibrationFactor S754_nan (bench_due true)).
  destruct (nan_factor_is_reported_as_number w 0
              (world_after static_t0 w) 2000
              (world_after millis (world_after static_t0 w)))
    as (w3 & w' & _ & Hp & Htx).
  - reflexivity.
  - reflexivity.
  - reflexivity.
  - vm_compute. discriminate.
  - exists w'. split; [exact Hp | exact Htx].
Defined.

(** ** The store *)

(** What a calibration that returns has done to the store. *)
Lemma interactiveCalibration_store toFloat w w' ns :
  prefs_namespace (prefs w) = Some ns ->
  interactiveCalibration toFloat w = Some (tt, w') ->
  (nvs w' = nvs w /\ nvs_journal w' = nvs_journal w)
  \/ (nvs w' = <[(ns, PREF_KEY) := calibrationFactor w']> (nvs w)
      /\ nvs_journal w' = nvs_journal w ++ [NvsPut ns PREF_KEY (calibrationFactor w')]).
Proof.
  intros Hns. rewrite interactiveCalibration_phases.
  destruct (calibration_measure w) as [[V w1]|] eqn:Hm; [|discriminate].
  destruct (read_line w1) as [[s w2]|] eqn:Hr; [|discriminate].
  pose proof (calibration_measure_io_only _ _ _ Hm) as [_ Hp1 Hn1 Hj1 _].
  pose proof (read_line_silent _ _ _ Hr) as [[_ Hp2 Hn2 Hj2 _] _].
  destruct (float_leb (toFloat s) lit_0f) eqn:Hle.
  - intros H. apply Some_pair_inj in H as [_ <-]. left. simpl.
    split; congruence.
  - intros H.
    destruct (next_byte (rx (Serial w2))) as [c|] eqn:Hc.
    + destruct (calibration_accepts toFloat w V w1 s w2 c Hm Hr Hle Hc)
        as (w'' & Hrun & Hcf & _ & Hsave).
      rewrite interactiveCalibration_phases, Hm, Hr, Hle, H in Hrun.
      apply Some_pair_inj in Hrun as [_ <-].
      rewrite Hns in Hsave. rewrite Hcf.
      destruct (Ascii.eqb c "y" || Ascii.eqb c "Y"); [right | left]; exact Hsave.
    + destruct (calibration_commit_blocks V (toFloat s) w2 Hc) as [_ Hb].
      rewrite Hb in H. discriminate H.
Qed.

(** X13: the sketch touches one key of the store only.  Whatever an
    iteration of [loop] does, every other key of the store keeps its
    value, and the iteration performs at most one operation on the
    store: the removal of [sct_factor], or a write of the factor that
    is live when the iteration ends. *)
Theorem loop_touches_only_its_key (toFloat : string -> float)
    (w w' : World) (ns : string) :
  prefs_namespace (prefs w) = Some ns ->
  loop toFloat w = Some (tt, w') ->
  (forall k, k <> (ns, PREF_KEY) -> nvs w' !! k = nvs w !! k)
  /\ (nvs_journal w' = nvs_journal w
      \/ nvs_journal w' = nvs_journal w ++ [NvsRemove ns PREF_KEY]
      \/ nvs_journal w' = nvs_journal w ++ [NvsPut ns PREF_KEY (calibrationFactor w')]).
Proof.
  intros Hns Hl.
  destruct (rx (Serial w)) as [|[c|] l] eqn:Hrx.
  - rewrite loop_idle in Hl by (rewrite Hrx; reflexivity).
    apply periodic_io_only in Hl as [_ _ Hn Hj _]. rewrite Hn, Hj. auto.
  - rewrite (loop_command toFloat w c l Hrx) in Hl.
    destruct (dispatch toFloat c (set_rx l w)) as [[[] w1]|] eqn:Hd; [|discriminate].
    apply periodic_io_only in Hl as [Hcf _ Hn Hj _]. rewrite Hn, Hj, Hcf.
    destruct (Ascii.eqb c "c") eqn:Ec.
    + apply Ascii.eqb_eq in Ec. subst c.
      unfold dispatch in Hd. cbn [Ascii.eqb Bool.eqb] in Hd.
      apply (interactiveCalibration_store toFloat (set_rx l w) w1 ns Hns) in Hd.
      destruct Hd as [[Hn1 Hj1]|[Hn1 Hj1]]; rewrite Hn1, Hj1.
      * auto.
      * split; [|auto]. intros k Hk. apply lookup_insert_ne. congruence.
    + apply Ascii.eqb_neq in Ec.
      destruct (dispatch_no_calibration toFloat c (set_rx l w) Ec)
        as (w1' & Hd' & _ & _ & _ & _ & Hkey).
      rewrite Hd in Hd'. apply Some_pair_inj in Hd' as [_ <-].
      destruct (Hkey ns Hns) as [Hk [Hj1|Hj1]]; rewrite Hj1; auto.
  - rewrite loop_idle in Hl by (rewrite Hrx; reflexivity).
    apply periodic_io_only in Hl as [_ _ Hn Hj _]. rewrite Hn, Hj. auto.
Qed.

Lemma loop_touches_only_its_key_witness :
  let w := bench_ready [RxByte "x"]
             {[ (PREF_NAMESPACE, PREF_KEY) := lit_5f;
                ("wifi"%string, "ssid"%string) := lit_1000f ]} in
  nvs (world_after (loop toFloat_decimal) w) !! ("wifi"%string, "ssid"%string)
  = Some lit_1000f.
Proof.
  intros w.
  destruct (loop_touches_only_its_key toFloat_decimal w
              (world_after (loop toFloat_decimal) w) PREF_NAMESPACE)
    as [Hk _].
  - reflexivity.
  - vm_compute. reflexivity.
  - rewrite Hk; [vm_compute; reflexivity | discriminate].
Defined.

(** X14: the erase command does not look at the store before it
    reports.  With the store open on [ns] it removes [sct_factor] and
    prints Calibration erased. whether or not the key was there; when
    it was not, the contents of the store are unchanged.  Other keys
    and the live factor are left as they were. *)
Theorem erase_reports_unconditionally (toFloat : string -> float)
    (w : World) (l : list line_event) (ns : string) :
  prefs_namespace (prefs w) = Some ns ->
  rx (Serial w) = RxByte "x" :: l ->
  exists w' out,
    loop toFloat w = Some (tt, w')
    /\ tx (Serial w') = tx (Serial w) ++ [TxStr "Calibration erased."; TxLn] ++ out
    /\ nvs w' = delete (ns, PREF_KEY) (nvs w)
    /\ (nvs w !! (ns, PREF_KEY) = None -> nvs w' = nvs w)
    /\ nvs_journal w' = nvs_journal w ++ [NvsRemove ns PREF_KEY]
    /\ calibrationFactor w' = calibrationFactor w.
Proof.
  intros Hns Hrx.
  destruct (dispatch_x toFloat (set_rx l w) ns Hns)
    as (wx & Hx & Hcf & _ & _ & Hn & Hj & Htx).
  destruct (periodic_total wx) as (w' & Hp & [Hcf1 _ Hn1 Hj1 _]).
  destruct (periodic_tx_extends wx w' Hp) as (out & Hout).
  exists w', out. rewrite (loop_command toFloat w "x" l Hrx), Hx.
  split; [exact Hp|].
  split; [rewrite Hout, Htx, <- app_assoc; reflexivity|].
  split; [rewrite Hn1, Hn; reflexivity|].
  split; [intros Hnone; rewrite Hn1, Hn; now apply delete_id|].
  split; [rewrite Hj1, Hj; reflexivity|].
  rewrite Hcf1, Hcf. reflexivity.
Qed.

Lemma erase_reports_unconditionally_witness :
  exists w' out,
    loop toFloat_decimal (bench_ready [RxByte "x"] ∅) = Some (tt, w')
    /\ tx (Serial w') = [TxStr "Calibration erased."; TxLn] ++ out
    /\ nvs w' = ∅.
Proof.
  destruct (erase_reports_unconditionally toFloat_decimal
              (bench_ready [RxByte "x"] ∅) [] PREF_NAMESPACE)
    as (w' & out & Hl & Htx & _ & Hn & _).
  - reflexivity.
  - reflexivity.
  - exists w', out. split; [exact Hl|]. split; [exact Htx|].
    apply Hn. reflexivity.
Defined.

(** ** Start-up and restart *)

(** What [setup] leaves of the devices. *)
Lemma setup_devices w :
  ads_present (ads w) = true ->
  exists w',
    setup w = Some (tt, w')
    /\ ads_gain (ads w') = GAIN_ONE
    /\ ads_next (ads w') = ads_next (ads w)
    /\ ads_present (ads w') = true
    /\ loop_t0 w' = loop_t0 w
    /\ clock w' = clock w
    /\ rx (Serial w') = elapse (rx (Serial w)).
Proof.
  destruct w as [cf t0 [r t] [p g c k] pr cl st j]. cbn [ads ads_present].
  intros ->. unfold setup. run_dev.
  destruct (st !! (PREF_NAMESPACE, PREF_KEY)) as [v|] eqn:E.
  - rewrite bool_decide_eq_true_2 by eauto. run_dev.
    eexists; split; [reflexivity|]. run_dev. repeat split; reflexivity.
  - rewrite bool_decide_eq_false_2 by (intros [? ?]; discriminate). run_dev.
    eexists; split; [reflexivity|]. run_dev. repeat split; reflexivity.
Qed.

(** X15: [setup] is fail-stop on the converter.  It returns exactly
    when the converter answers; when it returns it has set the gain to
    [GAIN_ONE], opened the store on [sct_conf], taken no conversion and
    written nothing to the store. *)
Theorem setup_needs_converter (w : World) :
  (setup w = None <-> ads_present (ads w) = false)
  /\ forall w',
       setup w = Some (tt, w') ->
       ads_gain (ads w') = GAIN_ONE
       /\ prefs_namespace (prefs w') = Some PREF_NAMESPACE
       /\ ads_next (ads w') = ads_next (ads w)
       /\ nvs w' = nvs w
       /\ nvs_journal w' = nvs_journal w.
Proof.
  destruct (ads_present (ads w)) eqn:Hads.
  - destruct (setup_devices w Hads) as (w1 & Hs & Hg & Hn & _).
    destruct (setup_spec w Hads) as (w2 & Hs2 & Hns & _ & Hst & Hj & _).
    rewrite Hs in Hs2. apply Some_pair_inj in Hs2 as [_ <-].
    split.
    + rewrite Hs. split; discriminate.
    + intros w' Hw. rewrite Hs in Hw. apply Some_pair_inj in Hw as [_ <-]. auto.
  - pose proof (setup_halts w Hads) as Hs. split.
    + rewrite Hs. split; reflexivity.
    + intros w' Hw. rewrite Hs in Hw. discriminate Hw.
Qed.

Lemma setup_needs_converter_witness :
  setup (power_on [] [] false (fun _ => 0) 0
           {| clock_readings := fun _ => 0; clock_next := 0 |} ∅ []) = None
  /\ ads_gain (ads (world_after setup (bench [] ∅))) = GAIN_ONE.
Proof.
  split.
  - apply (setup_needs_converter
             (power_on [] [] false (fun _ => 0) 0
                {| clock_readings := fun _ => 0; clock_next := 0 |} ∅ [])).
    reflexivity.
  - destruct (setup_needs_converter (bench [] ∅)) as [_ H].
    destruct (H (world_after setup (bench [] ∅))) as [Hg _]; [vm_compute; reflexivity|].
    exact Hg.
Defined.

Lemma calibration_commit_ads vrms iknown w w' :
  calibration_commit vrms iknown w = Some (tt, w') -> ads w' = ads w.
Proof.
  destruct (next_byte (rx (Serial w))) as [c|] eqn:Hc.
  - apply skip_gaps_next_byte in Hc as [l Hl].
    unfold calibration_commit.
    set (newFactor := float_div iknown vrms). clearbody newFactor.
    destruct w as [cf t0 [r t] a [pr] cl st j]. run.
    rewrite await_input_spec. run. cbn [rx Serial] in Hl. rewrite Hl. run.
    unfold Serial_read. run. rewrite char_of_int_byte.
    destruct (Ascii.eqb c "y" || Ascii.eqb c "Y").
    + unfold prefs_putFloat. run. destruct pr as [ns|]; run;
        intros H; apply Some_pair_inj in H as [_ <-]; reflexivity.
    + run. intros H; apply Some_pair_inj in H as [_ <-]; reflexivity.
  - destruct (calibration_commit_blocks vrms iknown w Hc) as [_ Hb].
    rewrite Hb. discriminate.
Qed.

(** X16: a calibration is durable exactly when its save was confirmed.
    After a run that reached the save prompt, with the store opened by
    [setup], a restart loads the new factor when the answer was [y] or
    [Y]; on any other answer it loads what the store held before the
    run, or the default 5.0 when it held nothing - the new factor is
    lost. *)
Theorem calibration_durable_iff_confirmed (toFloat : string -> float)
    (w : World) (V : float) (w1 : World) (s : string) (w2 : World) (c : ascii) :
  calibration_measure w = Some (V, w1) ->
  read_line w1 = Some (s, w2) ->
  float_leb (toFloat s) lit_0f = false ->
  next_byte (rx (Serial w2)) = Some c ->
  prefs_namespace (prefs w) = Some PREF_NAMESPACE ->
  ads_present (ads w) = true ->
  exists w' w'',
    interactiveCalibration toFloat w = Some (tt, w')
    /\ calibrationFactor w' = float_div (toFloat s) V
    /\ setup (restart w') = Some (tt, w'')
    /\ (c = "y"%char \/ c = "Y"%char ->
        calibrationFactor w'' = float_div (toFloat s) V)
    /\ (~ (c = "y"%char \/ c = "Y"%char) ->
        calibrationFactor w''
        = match nvs w !! (PREF_NAMESPACE, PREF_KEY) with
          | Some v => v
          | None => lit_5f
          end).
Proof.
  intros Hm Hr Hle Hc Hns Hads.
  destruct (calibration_accepts toFloat w V w1 s w2 c Hm Hr Hle Hc)
    as (w' & Hrun & Hcf & _ & Hsave).
  rewrite Hns in Hsave.
  assert (Hads' : ads_present (ads (restart w')) = true).
  { pose proof (calibration_measure_io_only _ _ _ Hm) as [_ _ _ _ Ha1].
    pose proof (read_line_silent _ _ _ Hr) as [[_ _ _ _ Ha2] _].
    pose proof Hrun as Hrun'.
    rewrite interactiveCalibration_phases, Hm, Hr, Hle in Hrun'.
    apply calibration_commit_ads in Hrun'.
    change (ads_present (ads w') = true). rewrite Hrun', Ha2, Ha1. exact Hads. }
  destruct (setup_spec (restart w') Hads') as (w'' & Hs & _ & Hcf' & _).
  change (nvs (restart w')) with (nvs w') in Hcf'.
  change (calibrationFactor (restart w')) with lit_5f in Hcf'.
  exists w', w''. split; [exact Hrun|]. split; [exact Hcf|]. split; [exact Hs|].
  split.
  - intros Hyes. apply confirm_byte in Hyes. rewrite Hyes in Hsave.
    destruct Hsave as [Hn _]. rewrite Hcf', Hn, lookup_insert_eq. reflexivity.
  - intros Hno.
    destruct (Ascii.eqb c "y" || Ascii.eqb c "Y") eqn:E.
    + apply confirm_byte in E. contradiction.
    + destruct Hsave as [Hn _]. rewrite Hcf', Hn. reflexivity.
Qed.

Lemma calibration_durable_iff_confirmed_witness :
  (exists w' w'',
     interactiveCalibration toFloat_decimal (bench_ready (operator "2.5" "y") ∅) = Some (tt, w')
     /\ setup (restart w') = Some (tt, w'')
     /\ calibrationFactor w'' = S754_finite false 12840374 (-18))
  /\ (exists w' w'',
        interactiveCalibration toFloat_decimal (bench_ready (operator "2.5" "n") ∅) = Some (tt, w')
        /\ calibrationFactor w' = S754_finite false 12840374 (-18)
        /\ setup (restart w') = Some (tt, w'')
        /\ calibrationFactor w'' = lit_5f).
Proof.
  split.
  - set (w := bench_ready (operator "2.5" "y") ∅).
    destruct (calibration_durable_iff_confirmed toFloat_decimal w
                (result_of calibration_measure w lit_0f)
                (world_after calibration_measure w)
                (result_of read_line (world_after calibration_measure w) EmptyString)
                (world_after read_line (world_after calibration_measure w))
                "y"%char)
      as (w' & w'' & Hrun & _ & Hs & Hyes & _).
    + vm_compute. reflexivity.
    + vm_compute. reflexivity.
    + vm_compute. reflexivity.
    + vm_compute. reflexivity.
    + reflexivity.
    + reflexivity.
    + exists w', w''. split; [exact Hrun|]. split; [exact Hs|].
      rewrite Hyes by (left; reflexivity). vm_compute. reflexivity.
  - set (w := bench_ready (operator "2.5" "n") ∅).
    destruct (calibration_durable_iff_confirmed toFloat_decimal w
                (result_of calibration_measure w lit_0f)
                (world_after calibration_measure w)
                (result_of read_line (world_after calibration_measure w) EmptyString)
                (world_after read_line (world_after calibration_measure w))
                "n"%char)
      as (w' & w'' & Hrun & Hcf & Hs & _ & Hno).
    + vm_compute. reflexivity.
    + vm_compute. reflexivity.
    + vm_compute. reflexivity.
    + vm_compute. reflexivity.
    + reflexivity.
    + reflexivity.
    + exists w', w''. split; [exact Hrun|].
      split; [rewrite Hcf; vm_compute; reflexivity|]. split; [exact Hs|].
      rewrite Hno by (intros [H|H]; discriminate H). vm_compute. reflexivity.
Defined.

(** ** Type-ahead *)

Lemma line_text_iter_elapse n l : line_text (Nat.iter n elapse l) = line_text l.
Proof.
  induction n as [|n IH]; [reflexivity|].
  simpl. now rewrite line_text_elapse.
Qed.

Lemma rx_bytes_after_line_iter_elapse n l :
  rx_bytes (after_line (Nat.iter n elapse l)) = rx_bytes (after_line l).
Proof.
  induction n as [|n IH]; [reflexivity|].
  simpl. now rewrite rx_bytes_after_line_elapse.
Qed.

Lemma In_iter_elapse c n l : In (RxByte c) (Nat.iter n elapse l) <-> In (RxByte c) l.
Proof.
  induction n as [|n IH]; [reflexivity|].
  simpl. now rewrite In_elapse.
Qed.

Lemma calibration_measure_line w V w1 :
  calibration_measure w = Some (V, w1) ->
  rx (Serial w1)
  = Nat.iter (Z.to_nat SAMPLES) elapse (skip_bytes (skip_gaps (rx (Serial w)))).
Proof.
  rewrite calibration_measure_spec.
  destruct (skip_gaps (rx (Serial w))) as [|e l]; [discriminate|].
  intros H. apply Some_pair_inj in H as [_ <-]. reflexivity.
Qed.

(** X17: the measurement starts on whatever byte is first available -
    it need not be ENTER, and a byte already in the buffer starts it
    without any wait - and that byte and everything buffered with it
    are thrown away.  The known current is therefore the first line
    that arrives after those bytes: the run gets as far as parsing it
    as soon as such a line exists, and what was typed ahead of the
    measurement is never part of it. *)
Theorem calibration_discards_type_ahead (w : World) :
  skip_gaps (rx (Serial w)) <> [] ->
  In (RxByte LF) (skip_bytes (skip_gaps (rx (Serial w)))) ->
  exists V w1 w2,
    calibration_measure w = Some (V, w1)
    /\ read_line w1
       = Some (line_text (skip_bytes (skip_gaps (rx (Serial w)))), w2)
    /\ rx_bytes (rx (Serial w2))
       = rx_bytes (after_line (skip_bytes (skip_gaps (rx (Serial w))))).
Proof.
  intros Hb Hlf.
  destruct (calibration_measure w) as [[V w1]|] eqn:Hm.
  - pose proof (calibration_measure_line w V w1 Hm) as Hrx.
    destruct (read_line w1) as [[s w2]|] eqn:Hr.
    + pose proof (read_line_loop_text _ _ _ _ _ Hr) as [Hs Hby].
      rewrite Hrx, line_text_iter_elapse in Hs.
      rewrite Hrx, rx_bytes_after_line_iter_elapse in Hby.
      simpl in Hs. subst s. exists V, w1, w2. auto.
    + apply read_line_blocks in Hr. rewrite Hrx, In_iter_elapse in Hr. contradiction.
  - rewrite calibration_measure_blocks, <- skip_gaps_nil in Hm. contradiction.
Qed.

Lemma calibration_discards_type_ahead_witness :
  exists V w1 w2,
    calibration_measure
      (bench_ready ([RxByte "9"; RxByte LF; Gap] ++ bytes "2.5" ++ [RxByte LF]) ∅)
    = Some (V, w1)
    /\ read_line w1 = Some ("2.5"%string, w2).
Proof.
  destruct (calibration_discards_type_ahead
              (bench_ready ([RxByte "9"; RxByte LF; Gap] ++ bytes "2.5" ++ [RxByte LF]) ∅))
    as (V & w1 & w2 & Hm & Hr & _).
  - simpl. discriminate.
  - simpl. tauto.
  - exists V, w1, w2. split; [exact Hm | exact Hr].
Defined.
